(** * Cost-center / enterprise-team synchronisation

    A shallow embedding of [sync_cost_center_with_teams.py] and the
    properties of its reconciliation engine.

    Conventions of the embedding.
    - A Python [str] is a [string], one character per [ascii]; the order used
      by [sorted] is the character-wise lexicographic order [String.leb].
    - A parsed JSON document is a [json] value.  A Python [dict] is an
      association list in insertion order with pairwise distinct keys; number
      literals are integers (floating point literals are outside the model).
    - Exceptions are results: [Raise e].  [logging] calls have no effect on
      the control flow and are left out, except where their argument can
      raise ([sorted] at lines 240 and 242).
    - The HTTP transport is a deterministic state machine [http] over an
      abstract server state; every call is appended to a trace.  A call that
      raises (time-out, connection error) is a call without response.
    - [main] reads its configuration from an environment [env], a function
      from variable names to their values. *)

From Stdlib Require Import ZArith Ascii String List Bool Lia Permutation Sorted.
From stdpp Require Import base decidable countable gmap strings sorting.
Import ListNotations.

#[local] Set Warnings "-register-all,-clear-no-such-hyp".

Local Open Scope Z_scope.
Local Open Scope list_scope.

(** ** Python string primitives *)

Module PyStr.

Definition dquote : ascii := "034"%char.
Definition comma : ascii := ","%char.
Definition langle : ascii := "<"%char.
Definition rangle : ascii := ">"%char.

(** [str.isspace] on one character with a code point below 256: the
    characters removed by [str.strip()] without arguments. *)
Definition is_space (c : ascii) : bool :=
  let n := N_of_ascii c in
  ((9 <=? n) && (n <=? 13) || (28 <=? n) && (n <=? 32)
   || (n =? 133) || (n =? 160))%N.

(** [s.split(c)] for a one-character separator: never the empty list. *)
Fixpoint split (c : ascii) (s : string) : list string :=
  match s with
  | EmptyString => [EmptyString]
  | String a s' =>
      if Ascii.eqb a c then EmptyString :: split c s'
      else match split c s' with
           | p :: ps => String a p :: ps
           | [] => [String a EmptyString]
           end
  end.

Fixpoint lstrip (s : string) : string :=
  match s with
  | EmptyString => EmptyString
  | String a s' => if is_space a then lstrip s' else s
  end.

Fixpoint rstrip (s : string) : string :=
  match s with
  | EmptyString => EmptyString
  | String a s' =>
      match rstrip s' with
      | EmptyString => if is_space a then EmptyString else String a EmptyString
      | r => String a r
      end
  end.

(** [s.strip()] *)
Definition strip (s : string) : string := rstrip (lstrip s).

Fixpoint starts_with (p s : string) : bool :=
  match p, s with
  | EmptyString, _ => true
  | String a p', String b s' => Ascii.eqb a b && starts_with p' s'
  | String _ _, EmptyString => false
  end.

(** [needle in hay] *)
Fixpoint contains (needle hay : string) : bool :=
  starts_with needle hay
  || match hay with
     | EmptyString => false
     | String _ hay' => contains needle hay'
     end.

(** [s.find(c)] for a one-character needle: the first index, or [-1]. *)
Fixpoint find (c : ascii) (s : string) : Z :=
  match s with
  | EmptyString => -1
  | String a s' =>
      if Ascii.eqb a c then 0
      else let r := find c s' in if r <? 0 then -1 else r + 1
  end.

Fixpoint drop (n : nat) (s : string) : string :=
  match n, s with
  | O, _ => s
  | S n', String _ s' => drop n' s'
  | S _, EmptyString => EmptyString
  end.

Fixpoint take (n : nat) (s : string) : string :=
  match n, s with
  | S n', String a s' => String a (take n' s')
  | _, _ => EmptyString
  end.

(** [s[i:j]] for [0 <= i] and [0 <= j] (the only slice taken by the program
    is guarded by [start > 0 and end > start]). *)
Definition slice (s : string) (i j : Z) : string :=
  take (Z.to_nat (j - i)) (drop (Z.to_nat i) s).

(** Truth value of a [str]. *)
Definition nonempty (s : string) : bool :=
  match s with EmptyString => false | String _ _ => true end.

(** [sep.join(parts)] *)
Fixpoint join (sep : string) (parts : list string) : string :=
  match parts with
  | [] => EmptyString
  | [p] => p
  | p :: ps => String.append p (String.append sep (join sep ps))
  end.

End PyStr.

(** ** Pagination link parsing *)

(** The literal [rel="next"]. *)
Definition rel_next : string :=
  String.append "rel=" (String PyStr.dquote (String.append "next" (String PyStr.dquote EmptyString))).

(** The [for part in parts] loop of [parse_next_link]. *)
Fixpoint scan_parts (parts : list string) : option string :=
  match parts with
  | [] => None
  | part :: rest =>
      if PyStr.contains rel_next part then
        let start := PyStr.find PyStr.langle part + 1 in
        let end_ := PyStr.find PyStr.rangle part in
        if (start >? 0) && (end_ >? start)
        then Some (PyStr.slice part start end_)
        else scan_parts rest
      else scan_parts rest
  end.

(** [parse_next_link(link_header)]; [None] is Python's [None] (the header
    is absent, [resp.headers.get("Link")]). *)
Definition parse_next_link (link_header : option string) : option string :=
  match link_header with
  | None => None
  | Some h =>
      if negb (PyStr.nonempty h) then None
      else scan_parts (map PyStr.strip (PyStr.split PyStr.comma h))
  end.

(** The header of the specification's example. *)
Definition spec_header : string :=
  String.append "<https://api.x/y?page=2>; rel="
    (String PyStr.dquote (String.append "next"
      (String PyStr.dquote (String.append ", <https://api.x/y?page=1>; rel="
        (String PyStr.dquote (String.append "prev" (String PyStr.dquote EmptyString))))))).


(** ** JSON values and the Python operations applied to them *)

Inductive json : Type :=
  | JNull
  | JBool (b : bool)
  | JNum (n : Z)
  | JStr (s : string)
  | JList (l : list json)
  | JDict (d : list (string * json)).

(** Exceptions raised by the program or by the operations it applies.
    [SystemExit msg status] stands for [SystemExit(f"{msg}{status}")].
    [OutOfFuel] is not a Python exception: it marks the exhaustion of the
    recursion bound of [team_loop] and is never produced by
    [fetch_enterprise_team_members] (lemma [team_loop_fuel]). *)
Inductive exn : Type :=
  | SystemExit (msg : string) (status : option Z)
  | TypeError
  | AttributeError
  | RequestException
  | OutOfFuel.

Inductive result (A : Type) : Type :=
  | Ok (a : A)
  | Raise (e : exn).
Arguments Ok {A} a.
Arguments Raise {A} e.

Definition rbind {A B} (r : result A) (k : A -> result B) : result B :=
  match r with
  | Ok a => k a
  | Raise e => Raise e
  end.

(** Elements of a Python set of logins: [str] and [int] values.  A [bool]
    is the [int] it equals ([True == 1] and [hash(True) == hash(1)]): set
    membership, difference and order are those of the program.  The program
    keeps the [bool] itself and would send [true] in the body of a mutation
    where [json_of_hashable] gives [1]: for a login [true] the bodies of the
    requests below differ from the program's in that rendering, and in
    nothing else.  [float] logins have no counterpart: the sets below are
    those of pages whose logins are strings, integers, booleans or absent. *)
Inductive hashable : Type :=
  | HStr (s : string)
  | HInt (n : Z).

Global Instance hashable_eq_dec : EqDecision hashable.
Proof. solve_decision. Defined.

Global Instance hashable_countable : Countable hashable.
Proof.
  refine (inj_countable'
    (fun h => match h with HStr s => inl s | HInt n => inr n end)
    (fun x => match x with inl s => HStr s | inr n => HInt n end) _).
  intros []; reflexivity.
Defined.

Definition json_of_hashable (h : hashable) : json :=
  match h with
  | HStr s => JStr s
  | HInt n => JNum n
  end.

(** Truth value of a JSON value ([bool(v)]). *)
Definition truthy (v : json) : bool :=
  match v with
  | JNull => false
  | JBool b => b
  | JNum n => negb (n =? 0)
  | JStr s => PyStr.nonempty s
  | JList l => match l with [] => false | _ :: _ => true end
  | JDict d => match d with [] => false | _ :: _ => true end
  end.

(** [a or b] *)
Definition py_or (a b : json) : json := if truthy a then a else b.

Definition is_list (v : json) : bool :=
  match v with JList _ => true | _ => false end.

Definition is_dict (v : json) : bool :=
  match v with JDict _ => true | _ => false end.

(** [k in d] and [d[k]] for a [dict]. *)
Fixpoint dict_lookup (d : list (string * json)) (k : string) : option json :=
  match d with
  | [] => None
  | (k', v) :: d' => if String.eqb k' k then Some v else dict_lookup d' k
  end.

(** [d.get(k)] *)
Definition dict_get (d : list (string * json)) (k : string) : json :=
  match dict_lookup d k with Some v => v | None => JNull end.

(** [d.get(k, dflt)] *)
Definition dict_get_default (d : list (string * json)) (k : string) (dflt : json) : json :=
  match dict_lookup d k with Some v => v | None => dflt end.

(** [k in v] for a [str] key [k] and an arbitrary JSON value [v]. *)
Definition py_in (k : string) (v : json) : result bool :=
  match v with
  | JDict d => Ok (match dict_lookup d k with Some _ => true | None => false end)
  | JList l =>
      Ok (existsb (fun x => match x with JStr s => String.eqb s k | _ => false end) l)
  | JStr s => Ok (PyStr.contains k s)
  | JNull | JBool _ | JNum _ => Raise TypeError
  end.

(** [v.get(k, dflt)] for an arbitrary JSON value [v]. *)
Definition py_get (v : json) (k : string) (dflt : json) : result json :=
  match v with
  | JDict d => Ok (dict_get_default d k dflt)
  | _ => Raise AttributeError
  end.

Fixpoint chars (s : string) : list json :=
  match s with
  | EmptyString => []
  | String a s' => JStr (String a EmptyString) :: chars s'
  end.

(** The items visited by [for x in v]. *)
Definition py_iter (v : json) : result (list json) :=
  match v with
  | JList l => Ok l
  | JStr s => Ok (chars s)
  | JDict d => Ok (map (fun kv => JStr (fst kv)) d)
  | JNull | JBool _ | JNum _ => Raise TypeError
  end.

(** [if login: logins.add(login)].  A non-empty list or dict is truthy and
    unhashable: [set.add] raises [TypeError]. *)
Definition add_login (login : json) (logins : gset hashable) : result (gset hashable) :=
  match login with
  | JNull => Ok logins
  | JBool b => if b then Ok ({[ HInt 1 ]} ∪ logins) else Ok logins
  | JNum n => if n =? 0 then Ok logins else Ok ({[ HInt n ]} ∪ logins)
  | JStr s => if PyStr.nonempty s then Ok ({[ HStr s ]} ∪ logins) else Ok logins
  | JList l => match l with [] => Ok logins | _ :: _ => Raise TypeError end
  | JDict d => match d with [] => Ok logins | _ :: _ => Raise TypeError end
  end.

(** ** Membership extractor *)

Definition priority_keys : list string :=
  ["memberships"; "items"; "value"; "data"]%string.

(** [for key in (...)]: the first key present with a list value. *)
Fixpoint first_listed (keys : list string) (d : list (string * json)) : option json :=
  match keys with
  | [] => None
  | key :: keys' =>
      match dict_lookup d key with
      | Some (JList l) => Some (JList l)
      | _ => first_listed keys' d
      end
  end.

(** [isinstance(v, list) and (len(v) == 0 or isinstance(v[0], dict))] *)
Definition looks_like_records (v : json) : bool :=
  match v with
  | JList [] => true
  | JList (JDict _ :: _) => true
  | _ => false
  end.

(** [for v in payload.values()] *)
Fixpoint first_records (vals : list json) : option json :=
  match vals with
  | [] => None
  | v :: vals' => if looks_like_records v then Some v else first_records vals'
  end.

(** [extract_memberships(payload)]; the value returned is always a list,
    given here by its items. *)
Definition extract_memberships (payload : json) : list json :=
  match payload with
  | JList l => l
  | JDict d =>
      match first_listed priority_keys d with
      | Some (JList l) => l
      | _ =>
          match first_records (map snd d) with
          | Some (JList l) => l
          | _ => []
          end
      end
  | _ => []
  end.

(** The login read from one membership record that is a [dict]
    (lines 91-96). *)
Definition record_login (m : list (string * json)) : json :=
  let user := py_or (dict_get m "user") (JDict []) in
  let login :=
    match user with
    | JDict u => dict_get u "login"
    | _ => JNull
    end in
  py_or login (dict_get m "login").

(** The [for m in memberships] loop (lines 87-99). *)
Fixpoint collect_logins (ms : list json) (logins : gset hashable) : result (gset hashable) :=
  match ms with
  | [] => Ok logins
  | JDict m :: ms' =>
      rbind (add_login (record_login m) logins) (collect_logins ms')
  | _ :: ms' => collect_logins ms' logins
  end.

(** The logins of one page of the team listing. *)
Definition page_logins (payload : json) (logins : gset hashable) : result (gset hashable) :=
  collect_logins (extract_memberships payload) logins.

(** ** Cost-center payload *)

(** The login read from one entry of a [users] collection
    (lines 146-149 and 155-158). *)
Definition user_login (user : json) : json :=
  match user with
  | JDict u => py_or (dict_get u "login") (dict_get u "username")
  | _ => user
  end.

(** The [for user in users] loop body applied to the visited items. *)
Fixpoint collect_users (users : list json) (logins : gset hashable) : result (gset hashable) :=
  match users with
  | [] => Ok logins
  | user :: users' =>
      rbind (add_login (user_login user) logins) (collect_users users')
  end.

(** Lines 139-163 of [fetch_cost_center_members]: the logins of a decoded
    cost-center document. *)
Definition cost_center_logins (data : json) : result (gset hashable) :=
  rbind (py_in "resources" data) (fun has_resources =>
  if has_resources then
    rbind (py_get data "resources" (JDict [])) (fun resources =>
    rbind (py_get resources "users" (JList [])) (fun users =>
    rbind (py_iter users) (fun items => collect_users items ∅)))
  else
    rbind (py_in "users" data) (fun has_users =>
    if has_users then
      rbind (py_get data "users" (JList [])) (fun users =>
      rbind (py_iter users) (fun items => collect_users items ∅))
    else Ok ∅)).

(** ** HTTP transport and the effects of the program *)

Inductive verb : Type := GET | POST | DELETE.

Record request : Type := mk_request {
  rq_verb : verb;
  rq_url : string;
  rq_headers : list (string * string);
  rq_json : option json
}.

(** What the program reads of a [requests.Response]: [status_code], the
    result of [json()] ([None] when it raises) and [headers.get("Link")]. *)
Record response : Type := mk_response {
  status_code : Z;
  resp_json : option json;
  link_header : option string
}.

(** One call of the transport: the request and the response, [None] when
    the call raised (time-out, connection error). *)
Definition exchange : Type := request * option response.

Definition is_mutation (x : exchange) : bool :=
  match rq_verb (fst x) with
  | GET => false
  | POST | DELETE => true
  end.

(** [github_headers(token)] *)
Definition github_headers (token : string) : list (string * string) :=
  [ ("Authorization", String.append "Bearer " token);
    ("Accept", "application/vnd.github+json");
    ("X-GitHub-Api-Version", "2022-11-28") ]%string.

Definition team_url (base enterprise team_slug : string) : string :=
  String.append base (String.append "/enterprises/" (String.append enterprise
    (String.append "/teams/" (String.append team_slug "/memberships")))).

Definition cost_center_url (base enterprise cost_center_id : string) : string :=
  String.append base (String.append "/enterprises/" (String.append enterprise
    (String.append "/settings/billing/cost-centers/" cost_center_id))).

Definition resource_url (base enterprise cost_center_id : string) : string :=
  String.append (cost_center_url base enterprise cost_center_id) "/resource".

(** The body [{"users": [username]}] of a mutation. *)
Definition users_payload (username : hashable) : json :=
  JDict [("users"%string, JList [json_of_hashable username])].

(** [while next_url:] *)
Definition url_truthy (next_url : option string) : bool :=
  match next_url with
  | Some u => PyStr.nonempty u
  | None => false
  end.

(** The values logged at the end of a mutation phase:
    [Successfully removed {count}/{len(to_remove)} users]. *)
Record phase_report : Type := mk_phase_report {
  succeeded : nat;
  attempted : nat
}.

(** The two phase summaries of a run; [None] when the phase is skipped. *)
Record sync_report : Type := mk_sync_report {
  removal_report : option phase_report;
  addition_report : option phase_report
}.

(** Lexicographic order on [str] elements, numeric order on [int]
    elements: the comparisons [sorted] performs on a homogeneous set.  The
    two mixed cases only make the relation total; [py_sorted] raises before
    comparing a [str] with an [int]. *)
Definition hashable_le (a b : hashable) : Prop :=
  match a, b with
  | HStr s, HStr t => String.leb s t = true
  | HInt n, HInt m => n <= m
  | HInt _, HStr _ => True
  | HStr _, HInt _ => False
  end.

Global Instance hashable_le_dec : RelDecision hashable_le.
Proof.
  intros [s|n] [t|m]; simpl; [ | right; tauto | left; exact I | ].
  - destruct (String.leb s t); [left; reflexivity | right; discriminate].
  - apply Z_le_dec.
Defined.

Definition is_str (h : hashable) : bool :=
  match h with HStr _ => true | HInt _ => false end.

(** [sorted(s)]: comparing a [str] with an [int] raises [TypeError]. *)
Definition py_sorted (s : gset hashable) : result (list hashable) :=
  let l := elements s in
  if forallb is_str l || forallb (fun h => negb (is_str h)) l
  then Ok (merge_sort hashable_le l)
  else Raise TypeError.

(** [cost_center_members - team_members] *)
Definition to_remove_of (team_members cost_center_members : gset hashable) : gset hashable :=
  cost_center_members ∖ team_members.

(** [team_members - cost_center_members] *)
Definition to_add_of (team_members cost_center_members : gset hashable) : gset hashable :=
  team_members ∖ cost_center_members.

(** Truth value of a set ([if to_remove:]). *)
Definition set_truthy (s : gset hashable) : bool :=
  negb (bool_decide (s = ∅)).

(** ** The program *)

Section Engine.

Variable World : Type.

(** One call of the transport in a server state: the response (or [None]
    when the call raises) and the next server state. *)
Variable http : World -> request -> option response * World.

(** State threaded through the program: the server and the calls made. *)
Definition state : Type := World * list exchange.

Definition M (A : Type) : Type := state -> result A * state.

Definition ret {A} (a : A) : M A := fun st => (Ok a, st).

Definition raise {A} (e : exn) : M A := fun st => (Raise e, st).

Definition bind {A B} (c : M A) (k : A -> M B) : M B :=
  fun st =>
    match c st with
    | (Ok a, st') => k a st'
    | (Raise e, st') => (Raise e, st')
    end.

Definition lift {A} (r : result A) : M A := fun st => (r, st).

Notation "x <- c ;; k" := (bind c (fun x => k))
  (at level 100, c at next level, right associativity).

(** [requests.get], [requests.post] and [requests.delete]. *)
Definition send (rq : request) : M response :=
  fun st =>
    let '(w, tr) := st in
    let '(r, w') := http w rq in
    (match r with Some resp => Ok resp | None => Raise RequestException end,
     (w', tr ++ [(rq, r)])).

(** The [while next_url] loop of [fetch_enterprise_team_members]. *)
Fixpoint team_loop (fuel : nat) (headers : list (string * string))
    (next_url : option string) (page : Z) (logins : gset hashable)
    : M (gset hashable) :=
  if url_truthy next_url then
    match fuel with
    | O => raise OutOfFuel
    | S fuel' =>
        resp <- send (mk_request GET (default EmptyString next_url) headers None) ;;
        if negb (status_code resp =? 200) then
          raise (SystemExit "Failed to fetch team memberships: HTTP " (Some (status_code resp)))
        else
          match resp_json resp with
          | None => raise (SystemExit "Non-JSON response from API" None)
          | Some payload =>
              logins' <- lift (page_logins payload logins) ;;
              let next_url' := parse_next_link (link_header resp) in
              let page' := page + 1 in
              if page' >? 200 then ret logins'
              else team_loop fuel' headers next_url' page' logins'
          end
    end
  else ret logins.

Definition fetch_enterprise_team_members (base enterprise team_slug token : string)
    : M (gset hashable) :=
  team_loop 200 (github_headers token)
    (Some (team_url base enterprise team_slug)) 1 ∅.

Definition fetch_cost_center_members (base enterprise cost_center_id token : string)
    : M (gset hashable) :=
  resp <- send (mk_request GET (cost_center_url base enterprise cost_center_id)
                  (github_headers token) None) ;;
  if negb (status_code resp =? 200) then
    raise (SystemExit "Failed to fetch cost center: HTTP " (Some (status_code resp)))
  else
    match resp_json resp with
    | None => raise (SystemExit "Non-JSON response from cost center API" None)
    | Some data => lift (cost_center_logins data)
    end.

Definition add_success (status : Z) : bool :=
  (status =? 200) || (status =? 201) || (status =? 204).

Definition remove_success (status : Z) : bool :=
  (status =? 200) || (status =? 204).

Definition add_user_to_cost_center
    (base enterprise cost_center_id : string) (username : hashable) (token : string)
    : M bool :=
  resp <- send (mk_request POST (resource_url base enterprise cost_center_id)
                  (github_headers token) (Some (users_payload username))) ;;
  if add_success (status_code resp) then ret true else ret false.

Definition remove_user_from_cost_center
    (base enterprise cost_center_id : string) (username : hashable) (token : string)
    : M bool :=
  resp <- send (mk_request DELETE (resource_url base enterprise cost_center_id)
                  (github_headers token) (Some (users_payload username))) ;;
  if remove_success (status_code resp) then ret true else ret false.

(** [for username in ...: if op(username): count += 1] *)
Fixpoint count_successes (op : hashable -> M bool) (usernames : list hashable)
    (count : nat) : M nat :=
  match usernames with
  | [] => ret count
  | username :: rest =>
      ok <- op username ;;
      count_successes op rest (if ok then S count else count)
  end.

(** One mutation phase (lines 245-256 and 259-270): skipped for an empty
    set, otherwise every element of [sorted(s)] is attempted. *)
Definition phase (op : hashable -> M bool) (s : gset hashable) : M (option phase_report) :=
  if set_truthy s then
    usernames <- lift (py_sorted s) ;;
    count <- count_successes op usernames 0%nat ;;
    ret (Some (mk_phase_report count (size s)))
  else ret None.

(** The argument of a [logging.info] call guarded by [if s:]. *)
Definition log_sorted (s : gset hashable) : M unit :=
  if set_truthy s then (_ <- lift (py_sorted s) ;; ret tt) else ret tt.

(** Lines 226-279 of [sync_cost_center_with_team]: the plan computed from
    the two fetched sets and its application. *)
Definition reconcile (base enterprise cost_center_id token : string)
    (team_members cost_center_members : gset hashable) : M sync_report :=
  let to_remove := to_remove_of team_members cost_center_members in
  let to_add := to_add_of team_members cost_center_members in
  _ <- log_sorted to_remove ;;
  _ <- log_sorted to_add ;;
  removed <- phase (fun username =>
               remove_user_from_cost_center base enterprise cost_center_id username token)
             to_remove ;;
  added <- phase (fun username =>
             add_user_to_cost_center base enterprise cost_center_id username token)
           to_add ;;
  ret (mk_sync_report removed added).

Definition sync_cost_center_with_team
    (base enterprise team_slug cost_center_id token : string) : M sync_report :=
  team_members <- fetch_enterprise_team_members base enterprise team_slug token ;;
  cost_center_members <- fetch_cost_center_members base enterprise cost_center_id token ;;
  reconcile base enterprise cost_center_id token team_members cost_center_members.

End Engine.

Arguments ret {World A} a.
Arguments raise {World A} e.
Arguments bind {World A B} c k.
Arguments lift {World A} r.

(** ** Notions used to state the properties *)

(** The request sent by [remove_user_from_cost_center]. *)
Definition delete_request (base enterprise cost_center_id token : string)
    (username : hashable) : request :=
  mk_request DELETE (resource_url base enterprise cost_center_id)
    (github_headers token) (Some (users_payload username)).

(** The request sent by [add_user_to_cost_center]. *)
Definition post_request (base enterprise cost_center_id token : string)
    (username : hashable) : request :=
  mk_request POST (resource_url base enterprise cost_center_id)
    (github_headers token) (Some (users_payload username)).

(** A read that received a status other than 200 or a body that is not
    JSON. *)
Definition bad_read (x : exchange) : bool :=
  match rq_verb (fst x), snd x with
  | GET, Some r =>
      negb (status_code r =? 200)
      || match resp_json r with None => true | Some _ => false end
  | _, _ => false
  end.

(** The run was ended by [SystemExit]. *)
Definition is_exit {A} (r : result A) : Prop :=
  exists msg status, r = Raise (SystemExit msg status).

(** The transport answers every mutation request (no time-out). *)
Definition answers_mutations {World} (http : World -> request -> option response * World) : Prop :=
  forall w rq, rq_verb rq <> GET -> exists r w', http w rq = (Some r, w').

(** An operation that sends the request [mk u] and reports whether the
    status it received satisfies [okb]. *)
Definition reports {World} (http : World -> request -> option response * World)
    (op : hashable -> M World bool) (mk : hashable -> request)
    (okb : Z -> bool) : Prop :=
  forall u w tr,
    match http w (mk u) with
    | (Some r, w') =>
        op u (w, tr) = (Ok (okb (status_code r)), (w', tr ++ [(mk u, Some r)]))
    | (None, w') =>
        op u (w, tr) = (Raise RequestException, (w', tr ++ [(mk u, None)]))
    end.

(** Status codes received in a list of exchanges. *)
Definition statuses (xs : list exchange) : list Z :=
  omap (fun x => option_map status_code (snd x)) xs.

(** The number of elements that satisfy [f]. *)
Definition count_true {A} (f : A -> bool) (l : list A) : nat :=
  length (List.filter f l).

(** Lexicographically ascending lists of logins. *)
Definition ascending (l : list string) : Prop :=
  Sorted (fun s t => String.leb s t = true) l.

(** A page of the team listing that is read without error and carries a
    next cursor. *)
Definition page_with_next (r : response) : Prop :=
  status_code r = 200 /\
  (exists payload, resp_json r = Some payload /\
     forall logins, exists logins', page_logins payload logins = Ok logins') /\
  url_truthy (parse_next_link (link_header r)) = true.

(** A transport on which pagination never ends on its own: every read is
    answered by such a page. *)
Definition never_ending {World} (http : World -> request -> option response * World) : Prop :=
  forall w rq, rq_verb rq = GET ->
    exists r w', http w rq = (Some r, w') /\ page_with_next r.

(** The logins accumulated from the payloads of a list of exchanges. *)
Fixpoint accumulate (xs : list exchange) (logins : gset hashable) : result (gset hashable) :=
  match xs with
  | [] => Ok logins
  | (_, Some r) :: xs' =>
      match resp_json r with
      | Some payload => rbind (page_logins payload logins) (accumulate xs')
      | None => accumulate xs' logins
      end
  | (_, None) :: xs' => accumulate xs' logins
  end.

(** *** Link headers, as the specification describes them *)

(** The descriptor [<url>; rel="value"]. *)
Definition render_descriptor (d : string * string) : string :=
  String PyStr.langle (String.append (fst d) (String.append ">; rel="
    (String PyStr.dquote (String.append (snd d) (String PyStr.dquote EmptyString))))).

(** Descriptors separated by a comma and the white space [ws]. *)
Definition render_header (ws : string) (ds : list (string * string)) : string :=
  PyStr.join (String PyStr.comma ws) (map render_descriptor ds).

(** The URL of the first descriptor whose relation value is exactly
    [next]. *)
Fixpoint spec_next (ds : list (string * string)) : option string :=
  match ds with
  | [] => None
  | (url, value) :: ds' =>
      if String.eqb value "next" then Some url else spec_next ds'
  end.

(** [c in s] for one character, and [s.count(c)]. *)
Fixpoint occurs (c : ascii) (s : string) : bool :=
  match s with
  | EmptyString => false
  | String a s' => Ascii.eqb a c || occurs c s'
  end.

Fixpoint count_char (c : ascii) (s : string) : nat :=
  match s with
  | EmptyString => 0%nat
  | String a s' => ((if Ascii.eqb a c then 1 else 0) + count_char c s')%nat
  end.

(** A string of white space only. *)
Fixpoint all_space (s : string) : bool :=
  match s with
  | EmptyString => true
  | String a s' => PyStr.is_space a && all_space s'
  end.

(** A descriptor the parser handles: a non-empty URL without comma, [>]
    or double quote, and a relation value without comma or double quote. *)
Definition plain_descriptor (d : string * string) : bool :=
  PyStr.nonempty (fst d)
  && negb (occurs PyStr.comma (fst d))
  && negb (occurs PyStr.rangle (fst d))
  && negb (occurs PyStr.dquote (fst d))
  && negb (occurs PyStr.comma (snd d))
  && negb (occurs PyStr.dquote (snd d)).

(** *** The extractor, as the specification describes it *)

(** The items of a value that is a sequence. *)
Definition list_items (v : json) : option (list json) :=
  match v with JList l => Some l | _ => None end.

(** Rules 1 to 4 of the membership extractor. *)
Definition spec_extract (payload : json) : list json :=
  match payload with
  | JList l => l
  | JDict d =>
      match head (omap (fun k => dict_lookup d k ≫= list_items) priority_keys) with
      | Some l => l
      | None =>
          match head (List.filter looks_like_records (map snd d)) with
          | Some (JList l) => l
          | _ => []
          end
      end
  | _ => []
  end.

(** The [login] field of a nested [user] mapping, when there is one. *)
Definition nested_login (m : list (string * json)) : option json :=
  match dict_lookup m "user" with
  | Some (JDict u) => dict_lookup u "login"
  | _ => None
  end.

(** The identifier of a record read literally: the nested [login] field
    if present, else the top-level [login] field if present. *)
Definition spec_record_login (m : list (string * json)) : option json :=
  match nested_login m with
  | Some l => Some l
  | None => dict_lookup m "login"
  end.

(** A field that is missing, [null], empty or zero. *)
Definition absent_or_falsy (o : option json) : Prop :=
  match o with
  | None => True
  | Some v => truthy v = false
  end.

(** *** Servers used in the examples *)

(** A server that replays a script of responses and then times out. *)
Definition scripted (w : list (option response)) (rq : request)
    : option response * list (option response) :=
  match w with
  | [] => (None, [])
  | r :: w' => (r, w')
  end.

(** The link header [<https://api.x/y?page=2>; rel="next"]. *)
Definition next_only_header : string :=
  render_header " " [("https://api.x/y?page=2", "next")]%string.

(** A server whose listing never ends: every page names one member and
    carries a next link. *)
Definition endless (w : nat) (rq : request) : option response * nat :=
  (Some (mk_response 200
           (Some (JDict [("memberships",
              JList [JDict [("user", JDict [("login", JStr "octocat")])]])]))%string
           (Some next_only_header)),
   S w).

(** A directory: the members of the team and of the cost center. *)
Record directory : Type := mk_directory {
  dir_team : list string;
  dir_members : list string
}.

(** The members other than [u]. *)
Definition remove_member (u : string) (l : list string) : list string :=
  filter (fun v => negb (String.eqb v u)) l.

(** A server that keeps a directory.  The team is listed on one page, the
    cost center as a [users] array; a mutation of a login for which
    [rejects] holds is refused with status 500, any other succeeds and
    updates the directory. *)
Definition directory_server (rejects : string -> bool) (w : directory) (rq : request)
    : option response * directory :=
  match rq_verb rq, rq_json rq with
  | GET, _ =>
      if PyStr.contains "/teams/" (rq_url rq) then
        (Some (mk_response 200
           (Some (JList (map (fun u => JDict [("login"%string, JStr u)]) (dir_team w))))
           None), w)
      else
        (Some (mk_response 200
           (Some (JDict [("users"%string, JList (map JStr (dir_members w)))]))
           None), w)
  | POST, Some (JDict [(_, JList [JStr u])]) =>
      if rejects u then (Some (mk_response 500 None None), w)
      else (Some (mk_response 201 None None),
            mk_directory (dir_team w) (u :: remove_member u (dir_members w)))
  | DELETE, Some (JDict [(_, JList [JStr u])]) =>
      if rejects u then (Some (mk_response 500 None None), w)
      else (Some (mk_response 204 None None),
            mk_directory (dir_team w) (remove_member u (dir_members w)))
  | _, _ => (Some (mk_response 400 None None), w)
  end.

(** The arguments of the runs in the examples. *)
Definition api : string := "https://api.github.com".
Definition acme : string := "acme".
Definition platform : string := "platform".
Definition cc42 : string := "cc-42".
Definition secret : string := "t0ken".

(** A directory out of sync, on a server that refuses to touch [carol]. *)
Definition busy_http : directory -> request -> option response * directory :=
  directory_server (fun u => String.eqb u "carol").

Definition busy_directory : directory :=
  mk_directory ["bob"; "alice"; "dave"]%string ["zoe"; "carol"; "bob"]%string.

Definition busy_team : gset hashable := {[HStr "bob"; HStr "alice"; HStr "dave"]}.

Definition busy_cost_center : gset hashable := {[HStr "zoe"; HStr "carol"; HStr "bob"]}.

(** The state after the team listing was read, then after the cost center
    was read. *)
Definition busy_reads1 : directory * list exchange :=
  snd (fetch_enterprise_team_members directory busy_http api acme platform secret
         (busy_directory, [])).

Definition busy_reads2 : directory * list exchange :=
  snd (fetch_cost_center_members directory busy_http api acme cc42 secret busy_reads1).

(** Three pages of two records each, the first two with a next link, and
    a cost-center document. *)
Definition page_of (a b : string) (link : option string) : option response :=
  Some (mk_response 200
          (Some (JList [JDict [("login"%string, JStr a)];
                        JDict [("user"%string, JDict [("login"%string, JStr b)])]]))
          link).

Definition three_pages : list (option response) :=
  [ page_of "ann" "ben" (Some next_only_header);
    page_of "cat" "dan" (Some next_only_header);
    page_of "eve" "fay" None ]%string.

(** A script in which the team listing is read and the cost-center read
    receives a body that is not JSON. *)
Definition broken_script : list (option response) :=
  [ Some (mk_response 200 (Some (JList [JDict [("login"%string, JStr "alice")]])) None);
    Some (mk_response 200 None None) ].

Definition broken_run : result sync_report * (list (option response) * list exchange) :=
  sync_cost_center_with_team (list (option response)) scripted api acme platform cc42 secret
    (broken_script, []).

(** The end-to-end scenario: team [{alice, bob}], cost center
    [{bob, carol}], on a server that accepts every mutation. *)
Definition plain_http : directory -> request -> option response * directory :=
  directory_server (fun _ => false).

Definition first_directory : directory :=
  mk_directory ["alice"; "bob"]%string ["bob"; "carol"]%string.

Definition first_run : result sync_report * (directory * list exchange) :=
  sync_cost_center_with_team directory plain_http api acme platform cc42 secret
    (first_directory, []).

(** The directory left by the first run, and the two reads of a second
    run. *)
Definition settled_directory : directory := fst (snd first_run).

Definition settled_team : gset hashable := {[HStr "alice"; HStr "bob"]}.

Definition settled_reads1 : directory * list exchange :=
  snd (fetch_enterprise_team_members directory plain_http api acme platform secret
         (settled_directory, [])).

Definition settled_reads2 : directory * list exchange :=
  snd (fetch_cost_center_members directory plain_http api acme cc42 secret settled_reads1).

(** The failure-isolation scenario: adding [x] is refused with status 500,
    adding [y] succeeds. *)
Definition picky_http : directory -> request -> option response * directory :=
  directory_server (fun u => String.eqb u "x").

Definition picky_run : result sync_report * (directory * list exchange) :=
  sync_cost_center_with_team directory picky_http api acme platform cc42 secret
    (mk_directory ["x"; "y"]%string [], []).

(** The descriptors of the specification's example header. *)
Definition spec_descriptors : list (string * string) :=
  [ ("https://api.x/y?page=2", "next"); ("https://api.x/y?page=1", "prev") ]%string.

(** A next link whose URL holds a comma. *)
Definition comma_descriptors : list (string * string) :=
  [ ("https://api.x/y?ids=1,2&page=2", "next") ]%string.

(** A record whose nested login is the empty string. *)
Definition empty_nested_record : list (string * json) :=
  [ ("user", JDict [("login", JStr EmptyString)]); ("login", JStr "bob") ]%string.

(** A cost-center document in which [resources] is a list of typed
    entries. *)
Definition listed_resources : json :=
  JDict [ ("id", JStr "cc-42"); ("name", JStr "Platform");
          ("resources",
           JList [JDict [("type", JStr "User"); ("name", JStr "octocat")]]) ]%string.

(** A document whose [resources] mapping holds a [users] mapping, next to
    a top-level [users] list. *)
Definition keyed_users : json :=
  JDict [ ("resources", JDict [("users", JDict [("alice", JNum 1)])]);
          ("users", JList [JStr "bob"]) ]%string.

(** A document whose [resources] mapping has no [users] key, next to a
    top-level [users] list. *)
Definition shadowed_users : list (string * json) :=
  [ ("resources", JDict [("projects", JList [])]);
    ("users", JList [JStr "bob"; JDict [("login", JStr "carol")]]) ]%string.

(** What an exchange shows of a mutation: verb, body and status. *)
Definition summary (x : exchange) : verb * option json * option Z :=
  (rq_verb (fst x), rq_json (fst x), option_map status_code (snd x)).

(** The status codes named Created, Accepted and No Content. *)
Definition created_accepted_no_content : list Z := [201; 202; 204].

(** ** The entry point *)

(** [s.rstrip(c)] for a one-character argument. *)
Fixpoint rstrip_char (c : ascii) (s : string) : string :=
  match s with
  | EmptyString => EmptyString
  | String a s' =>
      match rstrip_char c s' with
      | EmptyString => if Ascii.eqb a c then EmptyString else String a EmptyString
      | r => String a r
      end
  end.

(** [not os.getenv(name)]: the variable is unset or empty. *)
Definition env_unset (v : option string) : bool :=
  match v with
  | Some s => negb (PyStr.nonempty s)
  | None => true
  end.

(** Lines 292-300 of [main]: the names of the required variables that are
    unset or empty, in the order they are tested. *)
Definition missing_variables (env : string -> option string) : list string :=
  (if env_unset (env "GITHUB_ENTERPRISE") then ["GITHUB_ENTERPRISE"] else [])
  ++ (if env_unset (env "GITHUB_TEAM_SLUG") then ["GITHUB_TEAM_SLUG"] else [])
  ++ (if env_unset (env "GITHUB_COST_CENTER_ID") then ["GITHUB_COST_CENTER_ID"] else [])
  ++ (if env_unset (env "GITHUB_TOKEN") then ["GITHUB_TOKEN"] else []).

(** [os.getenv("GITHUB_API_BASE", "https://api.github.com").rstrip("/")] *)
Definition api_base (env : string -> option string) : string :=
  rstrip_char "/" (default "https://api.github.com"%string (env "GITHUB_API_BASE"%string)).

(** The exceptions caught by [except Exception]: [SystemExit] derives from
    [BaseException] and is not caught. *)
Definition is_exception (e : exn) : bool :=
  match e with
  | TypeError | AttributeError | RequestException => true
  | SystemExit _ _ | OutOfFuel => false
  end.

(** [SystemExit(1)], raised by [main]: exit status 1 and no message. *)
Definition exit_1 : exn := SystemExit EmptyString (Some 1).

(** [main()], on an environment [env] of variables. *)
Definition main {World} (http : World -> request -> option response * World)
    (env : string -> option string) : M World unit :=
  fun st =>
    let base := api_base env in
    let enterprise := env "GITHUB_ENTERPRISE"%string in
    let team_slug := env "GITHUB_TEAM_SLUG"%string in
    let cost_center_id := env "GITHUB_COST_CENTER_ID"%string in
    let token := env "GITHUB_TOKEN"%string in
    match missing_variables env with
    | _ :: _ => (Raise exit_1, st)
    | [] =>
        match sync_cost_center_with_team World http base
                (default EmptyString enterprise) (default EmptyString team_slug)
                (default EmptyString cost_center_id) (default EmptyString token) st with
        | (Ok _, st') => (Ok tt, st')
        | (Raise e, st') =>
            if is_exception e then (Raise exit_1, st') else (Raise e, st')
        end
    end.

(** *** Notions used to state further properties *)

(** A list of reads in which each request goes to the cursor found in the
    response before it, starting at [url]. *)
Fixpoint chained (url : string) (xs : list exchange) : Prop :=
  match xs with
  | [] => True
  | (rq, r) :: xs' =>
      rq_url rq = url /\
      match xs' with
      | [] => True
      | _ :: _ =>
          exists resp next, r = Some resp /\
            parse_next_link (link_header resp) = Some next /\ chained next xs'
      end
  end.

(** The cursor carried by the last exchange of a list, if any. *)
Definition last_cursor (xs : list exchange) : option string :=
  match last xs with
  | Some (_, Some resp) => parse_next_link (link_header resp)
  | _ => None
  end.

(** A login that [set.add] refuses: a non-empty list or mapping. *)
Definition unhashable (v : json) : bool :=
  match v with
  | JList (_ :: _) | JDict (_ :: _) => true
  | _ => false
  end.

(** An identifier that is falsy: the empty string or zero. *)
Definition blank (h : hashable) : bool :=
  match h with
  | HStr s => negb (PyStr.nonempty s)
  | HInt n => n =? 0
  end.

(** An entry of a [users] collection that names the login [s]: a bare
    string, a mapping with that [login], or a mapping without usable [login]
    and with that [username]. *)
Inductive names_entry : json -> string -> Prop :=
  | names_bare s :
      s <> EmptyString -> names_entry (JStr s) s
  | names_login u s :
      dict_lookup u "login" = Some (JStr s) -> s <> EmptyString ->
      names_entry (JDict u) s
  | names_username u s :
      absent_or_falsy (dict_lookup u "login") ->
      dict_lookup u "username" = Some (JStr s) -> s <> EmptyString ->
      names_entry (JDict u) s.

(** A cost-center document with the three kinds of entries. *)
Definition varied_users : list json :=
  [ JStr "ann"; JDict [("login", JStr "ben")];
    JDict [("login", JNull); ("username", JStr "cat")] ]%string.

(** A page whose second record has a list as login. *)
Definition odd_page : json :=
  JList [ JDict [("login", JStr "ann")]; JDict [("login", JList [JStr "ben"])] ]%string.

(** The login a membership record names: the [login] of its nested [user]
    mapping when that is a non-empty string, else, that field being
    missing, null, empty or zero, its top-level [login] when that is a
    non-empty string. *)
Inductive record_names : list (string * json) -> string -> Prop :=
  | by_nested_login m s :
      nested_login m = Some (JStr s) -> s <> EmptyString ->
      record_names m s
  | by_top_level_login m s :
      absent_or_falsy (nested_login m) ->
      dict_lookup m "login" = Some (JStr s) -> s <> EmptyString ->
      record_names m s.

(** What one item of a page contributes: nothing when it is not a mapping,
    the login it names, or nothing when both its login fields are missing,
    null, empty or zero. *)
Inductive record_yields : json -> option string -> Prop :=
  | yields_no_record v :
      is_dict v = false -> record_yields v None
  | yields_login m s :
      record_names m s -> record_yields (JDict m) (Some s)
  | yields_skip m :
      absent_or_falsy (nested_login m) -> absent_or_falsy (dict_lookup m "login") ->
      record_yields (JDict m) None.

(** The logins contributed by the items of a page. *)
Definition yielded (outs : list (option string)) : gset hashable :=
  list_to_set (map HStr (omap (fun o => o) outs)).

(** A page of five items: a nested login next to a top-level one, a bare
    string, the record with an empty nested login, a record without usable
    login, and a top-level login. *)
Definition five_items : list json :=
  [ JDict [("user", JDict [("login", JStr "alice")]); ("login", JStr "al")];
    JStr "junk";
    JDict empty_nested_record;
    JDict [("user", JStr "alice"); ("login", JNull)];
    JDict [("login", JStr "eve")] ]%string.

(** A server whose listing never ends and whose pages differ: page [w]
    names one of three members in turn, in the nested form, and [zoe] in
    the top-level form. *)
Definition rotating (w : nat) (rq : request) : option response * nat :=
  (Some (mk_response 200
           (Some (JDict [("memberships",
              JList [ JDict [("user",
                        JDict [("login",
                          JStr (nth (w mod 3) ["ann"; "ben"; "cat"] EmptyString))])];
                      JDict [("login", JStr "zoe")] ])]))%string
           (Some next_only_header)),
   S w).

(** The example of the specification on a server that accepts every
    mutation: team [{a, b, c}], cost center [{b, c, d}]. *)
Definition abcd_directory : directory :=
  mk_directory ["a"; "b"; "c"]%string ["b"; "c"; "d"]%string.

Definition abcd_run : result sync_report * (directory * list exchange) :=
  sync_cost_center_with_team directory plain_http api acme platform cc42 secret
    (abcd_directory, []).

(** A set that holds both a [str] and an [int]. *)
Definition mixed (s : gset hashable) : Prop :=
  exists a n, HStr a ∈ s /\ HInt n ∈ s.

(** An environment given by a list of bindings. *)
Definition env_of (bindings : list (string * string)) (name : string) : option string :=
  match List.find (fun kv => String.eqb (fst kv) name) bindings with
  | Some kv => Some (snd kv)
  | None => None
  end.

(** A complete configuration whose base address ends with slashes. *)
Definition full_env : string -> option string :=
  env_of [ ("GITHUB_API_BASE", "https://ghe.example/api/v3//");
           ("GITHUB_ENTERPRISE", "acme"); ("GITHUB_TEAM_SLUG", "platform");
           ("GITHUB_COST_CENTER_ID", "cc-42"); ("GITHUB_TOKEN", "t0ken") ]%string.

(** A configuration without team slug, and with an empty token. *)
Definition partial_env : string -> option string :=
  env_of [ ("GITHUB_ENTERPRISE", "acme"); ("GITHUB_COST_CENTER_ID", "cc-42");
           ("GITHUB_TOKEN", EmptyString) ]%string.

(** ** Properties of the string primitives *)

Section Strings.

Implicit Types (s t u v p : string) (c a : ascii).

#[local] Arguments String.append !_ _ / : simpl nomatch.

Lemma append_assoc s t u : (s +:+ t) +:+ u = s +:+ (t +:+ u).
Proof. induction s as [|a s IH]; simpl; [reflexivity | rewrite IH; reflexivity]. Qed.

Lemma append_nil_l s : EmptyString +:+ s = s.
Proof. reflexivity. Qed.

Lemma append_nil_r s : s +:+ EmptyString = s.
Proof. induction s as [|a s IH]; simpl; [reflexivity | rewrite IH; reflexivity]. Qed.

Lemma occurs_append c s t : occurs c (s +:+ t) = occurs c s || occurs c t.
Proof.
  induction s as [|a s IH]; simpl; [reflexivity|].
  rewrite IH. apply orb_assoc.
Qed.

Lemma count_char_append c s t :
  count_char c (s +:+ t) = (count_char c s + count_char c t)%nat.
Proof. induction s as [|a s IH]; simpl; [reflexivity | rewrite IH; lia]. Qed.

Lemma count_char_absent c s : occurs c s = false -> count_char c s = 0%nat.
Proof.
  induction s as [|a s IH]; simpl; [reflexivity|].
  destruct (Ascii.eqb a c); simpl; [discriminate | exact IH].
Qed.

Lemma occurs_absent c s : count_char c s = 0%nat -> occurs c s = false.
Proof.
  induction s as [|a s IH]; simpl; [reflexivity|].
  destruct (Ascii.eqb a c); simpl; [discriminate | exact IH].
Qed.

(** A string is cut at the first occurrence of a character in one way
    only. *)
Lemma first_occurrence_unique c s1 t1 s2 t2 :
  occurs c s1 = false -> occurs c s2 = false ->
  s1 +:+ String c t1 = s2 +:+ String c t2 -> s1 = s2 /\ t1 = t2.
Proof.
  revert s2. induction s1 as [|a s1 IH]; intros [|b s2]; simpl; intros H1 H2 Heq.
  - injection Heq as ->. split; reflexivity.
  - injection Heq as <- _. rewrite Ascii.eqb_refl in H2. discriminate.
  - injection Heq as -> _. rewrite Ascii.eqb_refl in H1. discriminate.
  - injection Heq as -> Heq. apply orb_false_iff in H1 as [_ H1].
    apply orb_false_iff in H2 as [_ H2].
    destruct (IH s2 H1 H2 Heq) as [-> ->]. split; reflexivity.
Qed.

Lemma split_absent c s : occurs c s = false -> PyStr.split c s = [s].
Proof.
  induction s as [|a s IH]; simpl; [reflexivity|].
  destruct (Ascii.eqb a c); simpl; [discriminate|].
  intros H. rewrite (IH H). reflexivity.
Qed.

Lemma split_at_first c s t :
  occurs c s = false ->
  PyStr.split c (s +:+ String c t) = s :: PyStr.split c t.
Proof.
  induction s as [|a s IH]; simpl.
  - rewrite Ascii.eqb_refl. reflexivity.
  - destruct (Ascii.eqb a c); simpl; [discriminate|].
    intros H. rewrite (IH H). reflexivity.
Qed.

(** [split] undoes [join] when neither the parts nor the padding hold the
    separator. *)
Lemma split_join c ws parts :
  occurs c ws = false ->
  Forall (fun p => occurs c p = false) parts ->
  forall pre p, occurs c pre = false -> occurs c p = false ->
    PyStr.split c (pre +:+ PyStr.join (String c ws) (p :: parts))
    = (pre +:+ p) :: map (String.append ws) parts.
Proof.
  intros Hws. induction 1 as [|q parts Hq _ IH]; intros pre p Hpre Hp.
  - simpl. apply split_absent. rewrite occurs_append, Hpre, Hp. reflexivity.
  - change (PyStr.join (String c ws) (p :: q :: parts))
      with (p +:+ String c (ws +:+ PyStr.join (String c ws) (q :: parts))).
    rewrite <- append_assoc, split_at_first
      by (rewrite occurs_append, Hpre, Hp; reflexivity).
    rewrite (IH ws q Hws Hq). reflexivity.
Qed.

Lemma lstrip_padding ws s : all_space ws = true -> PyStr.lstrip (ws +:+ s) = PyStr.lstrip s.
Proof.
  induction ws as [|a ws IH]; simpl; [reflexivity|].
  intros H. apply andb_true_iff in H as [-> H]. apply IH, H.
Qed.

Lemma rstrip_ends_with s c :
  PyStr.is_space c = false -> PyStr.rstrip (s +:+ String c EmptyString) = s +:+ String c EmptyString.
Proof.
  intros Hc. induction s as [|a s IH]; simpl.
  - rewrite Hc. reflexivity.
  - rewrite IH. destruct s; reflexivity.
Qed.

Lemma all_space_without c ws : PyStr.is_space c = false -> all_space ws = true -> occurs c ws = false.
Proof.
  intros Hc. induction ws as [|a ws IH]; simpl; [reflexivity|].
  intros H. apply andb_true_iff in H as [Ha H]. rewrite (IH H), orb_false_r.
  destruct (Ascii.eqb_spec a c) as [->|]; [congruence | reflexivity].
Qed.

Lemma starts_with_prefix p s : PyStr.starts_with p s = true -> exists t, s = p +:+ t.
Proof.
  revert s. induction p as [|a p IH]; intros s; simpl.
  - exists s. reflexivity.
  - destruct s as [|b s]; [discriminate|]. intros H.
    apply andb_true_iff in H as [Hab H]. apply Ascii.eqb_eq in Hab as ->.
    destruct (IH s H) as [t ->]. exists t. reflexivity.
Qed.

Lemma starts_with_append p t : PyStr.starts_with p (p +:+ t) = true.
Proof. induction p as [|a p IH]; simpl; [reflexivity|]. rewrite Ascii.eqb_refl. exact IH. Qed.

Lemma contains_elim p s :
  PyStr.contains p s = true -> exists pre post, s = pre +:+ p +:+ post.
Proof.
  induction s as [|a s IH]; simpl; intros H; apply orb_true_iff in H as [H|H].
  - apply starts_with_prefix in H as [t ->]. exists EmptyString, t. reflexivity.
  - discriminate.
  - apply starts_with_prefix in H as [t ->]. exists EmptyString, t. reflexivity.
  - destruct (IH H) as (pre & post & ->). exists (String a pre), post. reflexivity.
Qed.

Lemma contains_intro p pre post : PyStr.contains p (pre +:+ p +:+ post) = true.
Proof.
  induction pre as [|a pre IH]; simpl.
  - destruct (p +:+ post) eqn:E; simpl; rewrite <- ?E, starts_with_append; reflexivity.
  - rewrite IH. apply orb_true_r.
Qed.

Lemma find_at_first c s t :
  occurs c s = false -> PyStr.find c (s +:+ String c t) = Z.of_nat (String.length s).
Proof.
  induction s as [|a s IH]; simpl.
  - rewrite Ascii.eqb_refl. reflexivity.
  - destruct (Ascii.eqb a c); simpl; [discriminate|]. intros H. rewrite (IH H).
    destruct (Z.of_nat (String.length s) <? 0) eqn:E; [apply Z.ltb_lt in E|]; lia.
Qed.

Lemma take_append s t : PyStr.take (String.length s) (s +:+ t) = s.
Proof. induction s as [|a s IH]; simpl; [destruct t|rewrite IH]; reflexivity. Qed.

End Strings.

(** ** Properties of the link parser *)

Section LinkHeaders.

#[local] Arguments String.append !_ _ / : simpl nomatch.

Ltac reassoc := rewrite ?append_assoc; simpl; rewrite ?append_assoc; reflexivity.

Lemma plain_descriptor_inv url value :
  plain_descriptor (url, value) = true ->
  PyStr.nonempty url = true /\ occurs PyStr.comma url = false /\
  occurs PyStr.rangle url = false /\ occurs PyStr.dquote url = false /\
  occurs PyStr.comma value = false /\ occurs PyStr.dquote value = false.
Proof.
  unfold plain_descriptor. simpl. rewrite !andb_true_iff, !negb_true_iff. tauto.
Qed.

Lemma render_without_comma d :
  plain_descriptor d = true -> occurs PyStr.comma (render_descriptor d) = false.
Proof.
  destruct d as [url value]. intros H.
  apply plain_descriptor_inv in H as (_ & Hu & _ & _ & Hv & _).
  unfold render_descriptor. simpl. rewrite occurs_append, Hu. simpl.
  rewrite occurs_append, Hv. reflexivity.
Qed.

Lemma render_ends_with_quote url value :
  render_descriptor (url, value)
  = String PyStr.langle (url +:+ ">; rel=" +:+ String PyStr.dquote value)
    +:+ String PyStr.dquote EmptyString.
Proof. unfold render_descriptor. reassoc. Qed.

Lemma strip_render ws d :
  all_space ws = true -> PyStr.strip (ws +:+ render_descriptor d) = render_descriptor d.
Proof.
  intros Hws. unfold PyStr.strip. rewrite (lstrip_padding _ _ Hws).
  destruct d as [url value]. rewrite render_ends_with_quote.
  match goal with
  | |- context [PyStr.lstrip ?z] => change (PyStr.lstrip z) with z
  end.
  apply rstrip_ends_with. reflexivity.
Qed.

(** Among plain descriptors, the ones that hold [rel="next"] are the ones
    whose relation value is [next]. *)
Lemma contains_rel_next url value :
  occurs PyStr.dquote url = false -> occurs PyStr.dquote value = false ->
  PyStr.contains rel_next (render_descriptor (url, value)) = String.eqb value "next".
Proof.
  intros Hu Hv. destruct (String.eqb_spec value "next") as [->|Hne].
  - replace (render_descriptor (url, "next"%string))
      with (String PyStr.langle (url +:+ ">; ") +:+ rel_next +:+ EmptyString)
      by (unfold render_descriptor, rel_next; reassoc).
    apply contains_intro.
  - destruct (PyStr.contains rel_next (render_descriptor (url, value))) eqn:Hc; [|reflexivity].
    exfalso. apply contains_elim in Hc as (pre & post & Heq).
    assert (Hcount : count_char PyStr.dquote (render_descriptor (url, value)) = 2%nat).
    { unfold render_descriptor. simpl. rewrite count_char_append, (count_char_absent _ _ Hu).
      simpl. rewrite count_char_append, (count_char_absent _ _ Hv). reflexivity. }
    rewrite Heq, !count_char_append in Hcount. change (count_char PyStr.dquote rel_next) with 2%nat in Hcount.
    assert (Hpre : occurs PyStr.dquote pre = false) by (apply occurs_absent; lia).
    replace (render_descriptor (url, value))
      with (String PyStr.langle (url +:+ ">; rel=")
            +:+ String PyStr.dquote (value +:+ String PyStr.dquote EmptyString)) in Heq
      by (unfold render_descriptor; reassoc).
    replace (pre +:+ rel_next +:+ post)
      with ((pre +:+ "rel=") +:+ String PyStr.dquote ("next" +:+ String PyStr.dquote post)) in Heq
      by (unfold rel_next; reassoc).
    apply first_occurrence_unique in Heq as [_ Heq].
    + apply first_occurrence_unique in Heq as [Heq _]; [congruence | exact Hv | reflexivity].
    + simpl. rewrite occurs_append, Hu. reflexivity.
    + rewrite occurs_append, Hpre. reflexivity.
Qed.

(** The URL cut out of a plain descriptor. *)
Lemma slice_render url value :
  PyStr.nonempty url = true -> occurs PyStr.rangle url = false ->
  let part := render_descriptor (url, value) in
  let start := PyStr.find PyStr.langle part + 1 in
  let end_ := PyStr.find PyStr.rangle part in
  (start >? 0) && (end_ >? start) = true /\ PyStr.slice part start end_ = url.
Proof.
  intros Hne Hu part start end_.
  assert (Hstart : start = 1) by reflexivity.
  assert (Hend : end_ = Z.of_nat (String.length url) + 1).
  { unfold end_, part, render_descriptor. simpl.
    change (String ">" (String ";" ?x)) with (String PyStr.rangle (String ";" x)).
    rewrite (find_at_first _ _ _ Hu).
    destruct (Z.of_nat (String.length url) <? 0) eqn:E; [apply Z.ltb_lt in E; lia | reflexivity]. }
  rewrite Hstart, Hend. split.
  - destruct url; [discriminate|]. simpl String.length.
    apply andb_true_iff. split; [reflexivity | apply Z.gtb_lt; lia].
  - unfold PyStr.slice, part, render_descriptor.
    replace (Z.to_nat (Z.of_nat (String.length url) + 1 - 1)) with (String.length url) by lia.
    simpl. apply take_append.
Qed.

Lemma scan_plain_descriptors ds :
  forallb plain_descriptor ds = true ->
  scan_parts (map render_descriptor ds) = spec_next ds.
Proof.
  induction ds as [|[url value] ds IH]; [reflexivity|].
  cbn [forallb map scan_parts spec_next].
  intros H. apply andb_true_iff in H as [Hd Hds].
  apply plain_descriptor_inv in Hd as (Hne & _ & Hr & Hq & _ & Hv).
  rewrite (contains_rel_next _ _ Hq Hv).
  destruct (String.eqb value "next"); [|apply IH, Hds].
  destruct (slice_render url value Hne Hr) as [-> ->]. reflexivity.
Qed.

Lemma parse_plain_header ws ds :
  all_space ws = true -> forallb plain_descriptor ds = true ->
  parse_next_link (Some (render_header ws ds)) = spec_next ds.
Proof.
  intros Hws Hds. destruct ds as [|d ds]; [reflexivity|].
  simpl in Hds. apply andb_true_iff in Hds as [Hd Hds].
  unfold parse_next_link, render_header.
  assert (Hne : PyStr.nonempty (PyStr.join (String PyStr.comma ws)
                                  (map render_descriptor (d :: ds))) = true).
  { simpl. destruct (map render_descriptor ds); reflexivity. }
  rewrite Hne. simpl negb. cbv iota.
  pose proof (split_join PyStr.comma ws (map render_descriptor ds)
                (all_space_without PyStr.comma ws eq_refl Hws)) as Hsplit.
  specialize (Hsplit ltac:(apply Forall_forall; intros p Hp;
                           apply list_elem_of_In, in_map_iff in Hp as (d' & <- & Hd');
                           apply render_without_comma;
                           rewrite forallb_forall in Hds; apply Hds, Hd')
                EmptyString (render_descriptor d) eq_refl (render_without_comma _ Hd)).
  rewrite !append_nil_l in Hsplit.
  change (map render_descriptor (d :: ds))
    with (render_descriptor d :: map render_descriptor ds).
  rewrite Hsplit. cbn [map]. rewrite !map_map.
  rewrite <- (append_nil_l (render_descriptor d)) at 1.
  rewrite (strip_render EmptyString d eq_refl).
  erewrite map_ext by (intros d'; apply (strip_render ws d' Hws)).
  apply (scan_plain_descriptors (d :: ds)). cbn [forallb]. rewrite Hd, Hds. reflexivity.
Qed.

End LinkHeaders.

(** ** Properties of the extraction *)

Lemma add_login_raises login logins e :
  add_login login logins = Raise e -> e = TypeError.
Proof.
  destruct login as [|[]|n|s|[]|[]]; simpl; try discriminate; try congruence.
  - destruct (n =? 0); discriminate.
  - destruct (PyStr.nonempty s); discriminate.
Qed.

Lemma collect_logins_raises ms :
  forall logins e, collect_logins ms logins = Raise e -> e = TypeError.
Proof.
  induction ms as [|m ms IH]; intros logins e; simpl; [discriminate|].
  destruct m; try apply IH.
  destruct (add_login _ logins) as [logins'|e'] eqn:Hadd; simpl.
  - apply IH.
  - intros [= <-]. eapply add_login_raises, Hadd.
Qed.

Lemma page_logins_raises payload logins e :
  page_logins payload logins = Raise e -> e = TypeError.
Proof. apply collect_logins_raises. Qed.

(** ** Properties of [sorted] *)

Global Instance hashable_le_total : Total hashable_le.
Proof.
  intros [s|n] [t|m]; simpl; try tauto.
  - apply String.leb_total.
  - lia.
Qed.

Lemma all_str_map (l : list hashable) :
  Forall (fun h => is_str h = true) l -> exists names, l = map HStr names.
Proof.
  induction 1 as [|h l Hh _ (names & ->)].
  - exists []. reflexivity.
  - destruct h as [s|n]; [|discriminate]. exists (s :: names). reflexivity.
Qed.

Lemma ascending_of_sorted names :
  Sorted hashable_le (map HStr names) -> ascending names.
Proof.
  induction names as [|s names IH]; intros H; [constructor|].
  simpl in H. apply Sorted_inv in H as [Hs Hhd]. constructor; [apply IH, Hs|].
  destruct names as [|t names]; constructor.
  simpl in Hhd. apply HdRel_inv in Hhd. exact Hhd.
Qed.

(** On a set of strings [sorted] does not raise and returns the elements
    in ascending lexicographic order. *)
Lemma py_sorted_strings (s : gset hashable) :
  (forall h, h ∈ s -> is_str h = true) ->
  exists names,
    py_sorted s = Ok (map HStr names) /\ ascending names /\
    map HStr names ≡ₚ elements s.
Proof.
  intros Hstr. unfold py_sorted.
  assert (Hall : forallb is_str (elements s) = true).
  { apply forallb_forall. intros h Hin. apply Hstr.
    apply elem_of_elements, list_elem_of_In, Hin. }
  rewrite Hall. simpl.
  assert (Hperm : merge_sort hashable_le (elements s) ≡ₚ elements s)
    by apply merge_sort_Permutation.
  destruct (all_str_map (merge_sort hashable_le (elements s))) as (names & Hnames).
  { apply Forall_forall. intros h Hin. apply Hstr, elem_of_elements.
    rewrite <- Hperm. exact Hin. }
  exists names. rewrite <- Hnames. repeat split; [|exact Hperm].
  apply ascending_of_sorted. rewrite <- Hnames. apply Sorted_merge_sort, _.
Qed.

Lemma set_truthy_false (s : gset hashable) : set_truthy s = false -> s = ∅.
Proof.
  unfold set_truthy. intros H. apply negb_false_iff in H.
  apply bool_decide_eq_true in H. exact H.
Qed.

Lemma add_success_iff z : add_success z = true <-> z = 200 \/ z = 201 \/ z = 204.
Proof. unfold add_success. rewrite !orb_true_iff, !Z.eqb_eq. tauto. Qed.

Lemma remove_success_iff z : remove_success z = true <-> z = 200 \/ z = 204.
Proof. unfold remove_success. rewrite !orb_true_iff, !Z.eqb_eq. tauto. Qed.

Lemma nonempty_append a b :
  PyStr.nonempty (String.append a b) = PyStr.nonempty a || PyStr.nonempty b.
Proof. destruct a; reflexivity. Qed.

Lemma bad_read_of_mutation x : is_mutation x = true -> bad_read x = false.
Proof.
  unfold is_mutation, bad_read. destruct (rq_verb (fst x)); [discriminate| |];
    destruct (snd x); reflexivity.
Qed.

Lemma no_bad_read_in_mutations ex :
  Forall (fun x => is_mutation x = true) ex -> existsb bad_read ex = false.
Proof.
  induction 1 as [|x ex Hx _ IH]; [reflexivity|].
  simpl. rewrite (bad_read_of_mutation x Hx). exact IH.
Qed.

(** ** Properties of the runs *)

Section Runs.

Context {World : Type} (http : World -> request -> option response * World).

Lemma bind_ok {A B} (c : M World A) (k : A -> M World B) st a st' :
  c st = (Ok a, st') -> bind c k st = k a st'.
Proof. intros H. unfold bind. rewrite H. reflexivity. Qed.

Lemma bind_raise {A B} (c : M World A) (k : A -> M World B) st e st' :
  c st = (Raise e, st') -> bind c k st = (Raise e, st').
Proof. intros H. unfold bind. rewrite H. reflexivity. Qed.

Lemma send_answered w tr rq r w' :
  http w rq = (Some r, w') ->
  send World http rq (w, tr) = (Ok r, (w', tr ++ [(rq, Some r)])).
Proof. intros H. unfold send. rewrite H. reflexivity. Qed.

Lemma send_timeout w tr rq w' :
  http w rq = (None, w') ->
  send World http rq (w, tr) = (Raise RequestException, (w', tr ++ [(rq, None)])).
Proof. intros H. unfold send. rewrite H. reflexivity. Qed.

Lemma is_exit_ok {A} (a : A) : ~ is_exit (Ok a).
Proof. intros (msg & status & H). discriminate. Qed.

Lemma is_exit_raise {A B} e : is_exit (@Raise A e) -> is_exit (@Raise B e).
Proof. intros (msg & status & [= ->]). exists msg, status. reflexivity. Qed.

Lemma existsb_bad_read_app xs ys :
  existsb bad_read (xs ++ ys) = existsb bad_read xs || existsb bad_read ys.
Proof. apply existsb_app. Qed.

(** *** The team listing *)

(** Every call made by the loop is a read, and a read that received a bad
    status or body ends the loop with [SystemExit]. *)
Lemma team_loop_reads fuel headers :
  forall next_url page logins w tr res w' tr',
    team_loop World http fuel headers next_url page logins (w, tr) = (res, (w', tr')) ->
    exists ex, tr' = tr ++ ex /\
      Forall (fun x => is_mutation x = false) ex /\
      (existsb bad_read ex = true -> is_exit res).
Proof.
  induction fuel as [|fuel IH]; intros next_url page logins w tr res w' tr' Hrun;
    simpl in Hrun; destruct (url_truthy next_url).
  - inversion Hrun; subst. exists []. rewrite app_nil_r.
    repeat split; [constructor | discriminate].
  - inversion Hrun; subst. exists []. rewrite app_nil_r.
    repeat split; [constructor | discriminate].
  - unfold bind, send in Hrun.
    destruct (http w _) as [[r|] w1] eqn:Hhttp.
    + destruct (status_code r =? 200) eqn:Hst; simpl in Hrun.
      * destruct (resp_json r) as [payload|] eqn:Hjson.
        -- unfold lift in Hrun.
           destruct (page_logins payload logins) as [logins1|e] eqn:Hpl.
           ++ destruct (page + 1 >? 200).
              ** inversion Hrun; subst. eexists. split; [reflexivity|].
                 split; [repeat constructor|].
                 simpl. unfold bad_read. simpl. rewrite Hst, Hjson. discriminate.
              ** apply IH in Hrun as (ex & -> & Hmut & Hbad).
                 eexists. rewrite <- app_assoc. split; [reflexivity|].
                 split; [constructor; [reflexivity | exact Hmut]|].
                 simpl. unfold bad_read at 1. simpl. rewrite Hst, Hjson. exact Hbad.
           ++ inversion Hrun; subst. eexists. split; [reflexivity|].
              split; [repeat constructor|].
              simpl. unfold bad_read. simpl. rewrite Hst, Hjson. discriminate.
        -- inversion Hrun; subst. eexists. split; [reflexivity|].
           split; [repeat constructor|]. intros _. do 2 eexists. reflexivity.
      * inversion Hrun; subst. eexists. split; [reflexivity|].
        split; [repeat constructor|]. intros _. do 2 eexists. reflexivity.
    + inversion Hrun; subst. eexists. split; [reflexivity|].
      split; [repeat constructor|]. discriminate.
  - inversion Hrun; subst. exists []. rewrite app_nil_r.
    repeat split; [constructor | discriminate].
Qed.

(** The recursion bound of the embedding is never the reason the loop
    stops: the page counter ends it first. *)
Lemma team_loop_fuel fuel headers :
  forall next_url page logins st,
    page <= 200 -> 201 <= Z.of_nat fuel + page ->
    fst (team_loop World http fuel headers next_url page logins st) <> Raise OutOfFuel.
Proof.
  induction fuel as [|fuel IH]; intros next_url page logins [w tr] Hpage Hfuel.
  - lia.
  - simpl. destruct (url_truthy next_url); [|discriminate].
    unfold bind, send, raise, lift, ret.
    destruct (http w _) as [[r|] w1]; [|discriminate].
    destruct (status_code r =? 200); simpl; [|discriminate].
    destruct (resp_json r) as [payload|]; [|discriminate].
    destruct (page_logins payload logins) as [logins1|e] eqn:Hpl;
      [|apply page_logins_raises in Hpl; subst e; discriminate].
    destruct (page + 1 >? 200) eqn:Hcap; [discriminate|].
    apply IH; lia.
Qed.

Lemma fetch_team_reads base enterprise team_slug token w tr res w' tr' :
  fetch_enterprise_team_members World http base enterprise team_slug token (w, tr)
    = (res, (w', tr')) ->
  exists ex, tr' = tr ++ ex /\
    Forall (fun x => is_mutation x = false) ex /\
    (existsb bad_read ex = true -> is_exit res).
Proof. apply team_loop_reads. Qed.

(** *** The cost-center document *)

Lemma fetch_cost_center_reads base enterprise cost_center_id token w tr res w' tr' :
  fetch_cost_center_members World http base enterprise cost_center_id token (w, tr)
    = (res, (w', tr')) ->
  exists ex, tr' = tr ++ ex /\
    Forall (fun x => is_mutation x = false) ex /\
    (existsb bad_read ex = true -> is_exit res).
Proof.
  unfold fetch_cost_center_members, bind, send. intros Hrun.
  destruct (http w _) as [[r|] w1] eqn:Hhttp.
  - destruct (status_code r =? 200) eqn:Hst; simpl in Hrun.
    + destruct (resp_json r) as [data|] eqn:Hjson.
      * unfold lift in Hrun. inversion Hrun; subst. eexists. split; [reflexivity|].
        split; [repeat constructor|].
        simpl. unfold bad_read. simpl. rewrite Hst, Hjson. discriminate.
      * inversion Hrun; subst. eexists. split; [reflexivity|].
        split; [repeat constructor|]. intros _. do 2 eexists. reflexivity.
    + inversion Hrun; subst. eexists. split; [reflexivity|].
      split; [repeat constructor|]. intros _. do 2 eexists. reflexivity.
  - inversion Hrun; subst. eexists. split; [reflexivity|].
    split; [repeat constructor|]. discriminate.
Qed.

(** *** Mutations *)

Lemma add_user_answered base enterprise cost_center_id username token w tr r w' :
  http w (post_request base enterprise cost_center_id token username) = (Some r, w') ->
  add_user_to_cost_center World http base enterprise cost_center_id username token (w, tr)
  = (Ok (add_success (status_code r)),
     (w', tr ++ [(post_request base enterprise cost_center_id token username, Some r)])).
Proof.
  intros H. unfold add_user_to_cost_center.
  erewrite bind_ok by (apply send_answered; exact H).
  destruct (add_success (status_code r)); reflexivity.
Qed.

Lemma remove_user_answered base enterprise cost_center_id username token w tr r w' :
  http w (delete_request base enterprise cost_center_id token username) = (Some r, w') ->
  remove_user_from_cost_center World http base enterprise cost_center_id username token (w, tr)
  = (Ok (remove_success (status_code r)),
     (w', tr ++ [(delete_request base enterprise cost_center_id token username, Some r)])).
Proof.
  intros H. unfold remove_user_from_cost_center.
  erewrite bind_ok by (apply send_answered; exact H).
  destruct (remove_success (status_code r)); reflexivity.
Qed.

Lemma add_user_reports base enterprise cost_center_id token :
  reports http (fun u => add_user_to_cost_center World http base enterprise cost_center_id u token)
    (post_request base enterprise cost_center_id token) add_success.
Proof.
  intros u w tr. destruct (http w _) as [[r|] w'] eqn:H.
  - apply add_user_answered, H.
  - unfold add_user_to_cost_center.
    erewrite bind_raise by (apply send_timeout; exact H). reflexivity.
Qed.

Lemma remove_user_reports base enterprise cost_center_id token :
  reports http (fun u => remove_user_from_cost_center World http base enterprise cost_center_id u token)
    (delete_request base enterprise cost_center_id token) remove_success.
Proof.
  intros u w tr. destruct (http w _) as [[r|] w'] eqn:H.
  - apply remove_user_answered, H.
  - unfold remove_user_from_cost_center.
    erewrite bind_raise by (apply send_timeout; exact H). reflexivity.
Qed.

(** Whatever the outcome of the loop, every call it makes is one of the
    requests [mk u]. *)
Lemma count_successes_calls op mk okb :
  reports http op mk okb ->
  forall usernames count w tr res w' tr',
    count_successes World op usernames count (w, tr) = (res, (w', tr')) ->
    exists ex, tr' = tr ++ ex /\ Forall (fun x => exists u, fst x = mk u) ex.
Proof.
  intros Hop. induction usernames as [|u l IH]; intros count w tr res w' tr' Hrun.
  - inversion Hrun; subst. exists []. rewrite app_nil_r. split; [reflexivity|constructor].
  - simpl in Hrun. unfold bind in Hrun. specialize (Hop u w tr).
    destruct (http w (mk u)) as [[r|] w1]; rewrite Hop in Hrun.
    + apply IH in Hrun as (ex & -> & Hex). eexists. rewrite <- app_assoc.
      split; [reflexivity|]. constructor; [eexists; reflexivity | exact Hex].
    + inversion Hrun; subst. eexists. split; [reflexivity|].
      constructor; [eexists; reflexivity | constructor].
Qed.

(** When the transport answers, the loop attempts every username in order,
    whatever the statuses, and counts the successful ones. *)
Lemma count_successes_answered op mk okb :
  reports http op mk okb ->
  (forall u, rq_verb (mk u) <> GET) ->
  answers_mutations http ->
  forall usernames count w tr,
    exists w' ex,
      count_successes World op usernames count (w, tr)
      = (Ok (count + count_true okb (statuses ex))%nat, (w', tr ++ ex)) /\
      map fst ex = map mk usernames /\
      length (statuses ex) = length usernames.
Proof.
  intros Hop Hverb Hans. induction usernames as [|u l IH]; intros count w tr.
  - exists w, []. simpl. rewrite app_nil_r, Nat.add_0_r. repeat split.
  - simpl. unfold bind. specialize (Hop u w tr).
    destruct (Hans w (mk u) (Hverb u)) as (r & w1 & Hhttp).
    rewrite Hhttp in Hop. rewrite Hop.
    destruct (IH (if okb (status_code r) then S count else count) w1
                 (tr ++ [(mk u, Some r)])) as (w' & ex & Hrun & Hreq & Hlen).
    exists w', ((mk u, Some r) :: ex). rewrite Hrun, <- app_assoc. simpl.
    repeat split; [|congruence|congruence].
    do 2 f_equal. unfold count_true. simpl.
    destruct (okb (status_code r)) eqn:Hok.
    + simpl. lia.
    + reflexivity.
Qed.

Lemma log_sorted_state s (st : state World) res st' :
  log_sorted World s st = (res, st') -> st' = st.
Proof.
  unfold log_sorted, bind, lift, ret. destruct (set_truthy s); [|congruence].
  destruct (py_sorted s); congruence.
Qed.

Lemma phase_calls op mk okb s :
  reports http op mk okb ->
  forall w tr res w' tr',
    phase World op s (w, tr) = (res, (w', tr')) ->
    exists ex, tr' = tr ++ ex /\ Forall (fun x => exists u, fst x = mk u) ex.
Proof.
  intros Hop w tr res w' tr'. unfold phase, bind, lift, ret.
  destruct (set_truthy s).
  - destruct (py_sorted s) as [l|e].
    + destruct (count_successes World op l 0%nat (w, tr)) as [r [w1 tr1]] eqn:Hrun.
      apply (count_successes_calls _ _ _ Hop) in Hrun as (ex & -> & Hex).
      destruct r; intros [= <- <- <-]; eauto.
    + intros [= <- <- <-]. exists []. rewrite app_nil_r. split; [reflexivity|constructor].
  - intros [= <- <- <-]. exists []. rewrite app_nil_r. split; [reflexivity|constructor].
Qed.

(** Every call made while a plan is applied is a mutation. *)
Lemma reconcile_calls base enterprise cost_center_id token team cost_center
    w tr res w' tr' :
  reconcile World http base enterprise cost_center_id token team cost_center (w, tr)
    = (res, (w', tr')) ->
  exists ex, tr' = tr ++ ex /\ Forall (fun x => is_mutation x = true) ex.
Proof.
  unfold reconcile. unfold bind at 1.
  destruct (log_sorted _ _ (w, tr)) as [r1 st1] eqn:H1.
  apply log_sorted_state in H1 as ->.
  destruct r1; [|intros [= <- <- <-]; exists []; rewrite app_nil_r; split; [reflexivity|constructor]].
  unfold bind at 1.
  destruct (log_sorted _ _ (w, tr)) as [r2 st2] eqn:H2.
  apply log_sorted_state in H2 as ->.
  destruct r2; [|intros [= <- <- <-]; exists []; rewrite app_nil_r; split; [reflexivity|constructor]].
  unfold bind at 1.
  destruct (phase _ _ _ (w, tr)) as [r3 [w3 tr3]] eqn:H3.
  apply (phase_calls _ _ _ _ (remove_user_reports _ _ _ _)) in H3 as (ex3 & -> & Hex3).
  assert (Hm3 : Forall (fun x => is_mutation x = true) ex3).
  { eapply Forall_impl; [exact Hex3|]. intros x [u Hu]. unfold is_mutation. rewrite Hu. reflexivity. }
  destruct r3; [|intros [= <- <- <-]; eauto].
  unfold bind at 1.
  destruct (phase _ _ _ (w3, tr ++ ex3)) as [r4 [w4 tr4]] eqn:H4.
  apply (phase_calls _ _ _ _ (add_user_reports _ _ _ _)) in H4 as (ex4 & -> & Hex4).
  assert (Hm4 : Forall (fun x => is_mutation x = true) ex4).
  { eapply Forall_impl; [exact Hex4|]. intros x [u Hu]. unfold is_mutation. rewrite Hu. reflexivity. }
  destruct r4; intros [= <- <- <-]; exists (ex3 ++ ex4); rewrite app_assoc;
    (split; [reflexivity | apply Forall_app; split; assumption]).
Qed.

Lemma sync_after_fetch base enterprise team_slug cost_center_id token st
    team st1 cost_center st2 :
  fetch_enterprise_team_members World http base enterprise team_slug token st
    = (Ok team, st1) ->
  fetch_cost_center_members World http base enterprise cost_center_id token st1
    = (Ok cost_center, st2) ->
  sync_cost_center_with_team World http base enterprise team_slug cost_center_id token st
  = reconcile World http base enterprise cost_center_id token team cost_center st2.
Proof.
  intros Ht Hc. unfold sync_cost_center_with_team.
  erewrite bind_ok by exact Ht. erewrite bind_ok by exact Hc. reflexivity.
Qed.

(** A phase over a set of strings, with a transport that answers: every
    element is attempted, in ascending order. *)
Lemma phase_answered op mk okb (s : gset hashable) :
  reports http op mk okb ->
  (forall u, rq_verb (mk u) <> GET) ->
  answers_mutations http ->
  (forall h, h ∈ s -> is_str h = true) ->
  forall w tr,
    exists names w' ex,
      phase World op s (w, tr)
      = (Ok (if set_truthy s
             then Some (mk_phase_report (count_true okb (statuses ex)) (size s))
             else None),
         (w', tr ++ ex)) /\
      map fst ex = map mk (map HStr names) /\
      length (statuses ex) = length names /\
      ascending names /\
      map HStr names ≡ₚ elements s.
Proof.
  intros Hop Hverb Hans Hstr w tr.
  destruct (py_sorted_strings s Hstr) as (names & Hsorted & Hasc & Hperm).
  unfold phase. destruct (set_truthy s) eqn:Htruthy.
  - destruct (count_successes_answered op mk okb Hop Hverb Hans (map HStr names) 0%nat w tr)
      as (w' & ex & Hrun & Hreq & Hlen).
    exists names, w', ex. unfold bind, lift, ret. rewrite Hsorted, Hrun.
    rewrite length_map in Hlen. repeat split; assumption.
  - exists [], w, []. apply set_truthy_false in Htruthy. subst s.
    unfold ret. rewrite app_nil_r, elements_empty. repeat split; constructor.
Qed.

Lemma log_sorted_strings (s : gset hashable) st :
  (forall h, h ∈ s -> is_str h = true) ->
  log_sorted World s st = (Ok tt, st).
Proof.
  intros Hstr. destruct (py_sorted_strings s Hstr) as (names & Hsorted & _).
  unfold log_sorted, bind, lift, ret. rewrite Hsorted.
  destruct (set_truthy s); reflexivity.
Qed.

(** The calls made while a plan over strings is applied, with a transport
    that answers: the removals in ascending order, then the additions in
    ascending order. *)
Lemma reconcile_answered base enterprise cost_center_id token
    (team cost_center : gset hashable) w tr :
  answers_mutations http ->
  (forall h, h ∈ team ∪ cost_center -> is_str h = true) ->
  exists removals additions report w' ex_rem ex_add,
    reconcile World http base enterprise cost_center_id token team cost_center (w, tr)
    = (Ok report, (w', tr ++ ex_rem ++ ex_add)) /\
    map fst ex_rem
    = map (delete_request base enterprise cost_center_id token) (map HStr removals) /\
    map fst ex_add
    = map (post_request base enterprise cost_center_id token) (map HStr additions) /\
    ascending removals /\ ascending additions /\
    map HStr removals ≡ₚ elements (to_remove_of team cost_center) /\
    map HStr additions ≡ₚ elements (to_add_of team cost_center).
Proof.
  intros Hans Hstr.
  assert (Hrem : forall h, h ∈ to_remove_of team cost_center -> is_str h = true).
  { intros h Hin. apply Hstr. unfold to_remove_of in Hin. set_solver. }
  assert (Hadd : forall h, h ∈ to_add_of team cost_center -> is_str h = true).
  { intros h Hin. apply Hstr. unfold to_add_of in Hin. set_solver. }
  destruct (phase_answered _ _ _ _
              (remove_user_reports base enterprise cost_center_id token)
              ltac:(discriminate) Hans Hrem w tr)
    as (removals & w1 & ex_rem & Hrun1 & Hreq1 & _ & Hasc1 & Hperm1).
  destruct (phase_answered _ _ _ _
              (add_user_reports base enterprise cost_center_id token)
              ltac:(discriminate) Hans Hadd w1 (tr ++ ex_rem))
    as (additions & w2 & ex_add & Hrun2 & Hreq2 & _ & Hasc2 & Hperm2).
  exists removals, additions. eexists. exists w2, ex_rem, ex_add.
  split; [|repeat split; assumption].
  unfold reconcile.
  erewrite bind_ok by (apply log_sorted_strings, Hrem).
  erewrite bind_ok by (apply log_sorted_strings, Hadd).
  erewrite bind_ok by exact Hrun1.
  erewrite bind_ok by exact Hrun2.
  rewrite <- app_assoc. reflexivity.
Qed.

(** One turn of the loop on a page that is read without error. *)
Lemma team_loop_page fuel headers next_url page logins w tr r w1 payload logins1 :
  url_truthy next_url = true ->
  http w (mk_request GET (default EmptyString next_url) headers None) = (Some r, w1) ->
  status_code r = 200 ->
  resp_json r = Some payload ->
  page_logins payload logins = Ok logins1 ->
  team_loop World http (S fuel) headers next_url page logins (w, tr)
  = if page + 1 >? 200
    then (Ok logins1,
          (w1, tr ++ [(mk_request GET (default EmptyString next_url) headers None, Some r)]))
    else team_loop World http fuel headers (parse_next_link (link_header r)) (page + 1)
           logins1
           (w1, tr ++ [(mk_request GET (default EmptyString next_url) headers None, Some r)]).
Proof.
  intros Hurl Hhttp Hst Hjson Hpl. simpl. rewrite Hurl.
  unfold bind, send, lift. rewrite Hhttp, Hst. simpl. rewrite Hjson, Hpl.
  destruct (page + 1 >? 200); reflexivity.
Qed.

(** A listing in which every page carries a next cursor is read until the
    page counter passes the cap: one call per unit of [fuel]. *)
Lemma team_loop_never_ending headers :
  never_ending http ->
  forall fuel next_url page logins w tr,
    url_truthy next_url = true ->
    Z.of_nat (S fuel) + page = 201 ->
    exists logins' w' ex,
      team_loop World http (S fuel) headers next_url page logins (w, tr)
      = (Ok logins', (w', tr ++ ex)) /\
      length ex = S fuel /\
      Forall (fun x => rq_verb (fst x) = GET) ex /\
      accumulate ex logins = Ok logins'.
Proof.
  intros Hnever. induction fuel as [|fuel IH]; intros next_url page logins w tr Hurl Hpage;
    destruct (Hnever w (mk_request GET (default EmptyString next_url) headers None) eq_refl)
      as (r & w1 & Hhttp & Hst & (payload & Hjson & Hlogins) & Hnext);
    destruct (Hlogins logins) as (logins1 & Hpl);
    rewrite (team_loop_page _ _ _ _ _ _ _ _ _ _ _ Hurl Hhttp Hst Hjson Hpl).
  - replace (page + 1 >? 200) with true by (symmetry; apply Z.gtb_lt; lia).
    exists logins1, w1. eexists. split; [reflexivity|].
    repeat split; [repeat constructor|]. simpl. rewrite Hjson, Hpl. reflexivity.
  - replace (page + 1 >? 200) with false
      by (rewrite Z.gtb_ltb; symmetry; apply Z.ltb_ge; lia).
    destruct (IH (parse_next_link (link_header r)) (page + 1) logins1 w1
                 (tr ++ [(mk_request GET (default EmptyString next_url) headers None, Some r)])
                 Hnext ltac:(lia))
      as (logins' & w' & ex & Hrun & Hlen & Hget & Hacc).
    exists logins', w'. eexists. rewrite Hrun, <- app_assoc. split; [reflexivity|].
    simpl. rewrite Hlen, Hjson, Hpl. repeat split; [constructor; [reflexivity|exact Hget]|].
    exact Hacc.
Qed.

End Runs.

(** The recursion bound of the embedding never stops the team fetch. *)
Lemma fetch_team_never_out_of_fuel {World} (http : World -> request -> option response * World)
    base enterprise team_slug token st :
  fst (fetch_enterprise_team_members World http base enterprise team_slug token st)
  <> Raise OutOfFuel.
Proof. apply team_loop_fuel; simpl; lia. Qed.

Lemma team_url_truthy base enterprise team_slug :
  url_truthy (Some (team_url base enterprise team_slug)) = true.
Proof.
  unfold team_url. simpl. rewrite !nonempty_append. simpl. apply orb_true_r.
Qed.

Lemma all_strings (s : gset hashable) :
  forallb is_str (elements s) = true -> forall h, h ∈ s -> is_str h = true.
Proof.
  intros H h Hin. rewrite forallb_forall in H. apply H.
  apply list_elem_of_In, elem_of_elements, Hin.
Qed.

(** ** The orchestrator *)

(** C2: for every plan over string identifiers, with a transport that
    answers each mutation request with some status, the calls made after the
    two reads are the removals in ascending lexicographic order followed by
    the additions in ascending lexicographic order; each list is a
    permutation of its set, so every identifier is attempted whatever
    statuses the earlier mutations received. *)
Theorem removals_then_additions_in_sorted_order {World}
    (http : World -> request -> option response * World)
    base enterprise team_slug cost_center_id token
    w tr team w1 tr1 cost_center w2 tr2 :
  answers_mutations http ->
  fetch_enterprise_team_members World http base enterprise team_slug token (w, tr)
    = (Ok team, (w1, tr1)) ->
  fetch_cost_center_members World http base enterprise cost_center_id token (w1, tr1)
    = (Ok cost_center, (w2, tr2)) ->
  forallb is_str (elements (team ∪ cost_center)) = true ->
  exists removals additions report w3 ex_rem ex_add,
    sync_cost_center_with_team World http base enterprise team_slug cost_center_id token (w, tr)
    = (Ok report, (w3, tr2 ++ ex_rem ++ ex_add)) /\
    map fst ex_rem
    = map (delete_request base enterprise cost_center_id token) (map HStr removals) /\
    map fst ex_add
    = map (post_request base enterprise cost_center_id token) (map HStr additions) /\
    ascending removals /\ ascending additions /\
    map HStr removals ≡ₚ elements (to_remove_of team cost_center) /\
    map HStr additions ≡ₚ elements (to_add_of team cost_center).
Proof.
  intros Hans Hteam Hcc Hstr.
  rewrite (sync_after_fetch http _ _ _ _ _ _ _ _ _ _ Hteam Hcc).
  apply reconcile_answered; [exact Hans | apply all_strings, Hstr].
Qed.

(** C4: in a run in which a read received a status other than 200 or a
    body that is not JSON, the run ends with [SystemExit] and no call of the
    run is a mutation. *)
Theorem fetch_failure_aborts_before_mutation {World}
    (http : World -> request -> option response * World)
    base enterprise team_slug cost_center_id token w res w' tr :
  sync_cost_center_with_team World http base enterprise team_slug cost_center_id token (w, [])
    = (res, (w', tr)) ->
  existsb bad_read tr = true ->
  is_exit res /\ Forall (fun x => is_mutation x = false) tr.
Proof.
  intros Hrun Hbad. unfold sync_cost_center_with_team in Hrun. unfold bind at 1 in Hrun.
  destruct (fetch_enterprise_team_members _ _ _ _ _ _ (w, [])) as [r1 [w1 tr1]] eqn:H1.
  apply fetch_team_reads in H1 as (ex1 & -> & Hm1 & Hb1). simpl in *.
  destruct r1 as [team|e1];
    [|inversion Hrun; subst; split; [eapply is_exit_raise, Hb1, Hbad | exact Hm1]].
  unfold bind at 1 in Hrun.
  destruct (fetch_cost_center_members _ _ _ _ _ _ (w1, ex1)) as [r2 [w2 tr2]] eqn:H2.
  apply fetch_cost_center_reads in H2 as (ex2 & -> & Hm2 & Hb2).
  destruct r2 as [cost_center|e2].
  - apply reconcile_calls in Hrun as (ex3 & -> & Hm3).
    rewrite !existsb_app, (no_bad_read_in_mutations _ Hm3), orb_false_r in Hbad.
    apply orb_true_iff in Hbad as [Hbad|Hbad].
    + destruct (is_exit_ok _ (Hb1 Hbad)).
    + destruct (is_exit_ok _ (Hb2 Hbad)).
  - inversion Hrun; subst. rewrite existsb_app in Hbad.
    apply orb_true_iff in Hbad as [Hbad|Hbad].
    + destruct (is_exit_ok _ (Hb1 Hbad)).
    + split; [eapply is_exit_raise, Hb2, Hbad | apply Forall_app; split; assumption].
Qed.

(** C5: when the cost-center set read by a run equals the team set read by
    the same run, both differences are empty and the run makes no call after
    the two reads: its final state is the state reached by the reads, and
    the reads are not mutations. *)
Theorem second_run_makes_no_change {World}
    (http : World -> request -> option response * World)
    base enterprise team_slug cost_center_id token w tr team w1 tr1 w2 tr2 :
  fetch_enterprise_team_members World http base enterprise team_slug token (w, tr)
    = (Ok team, (w1, tr1)) ->
  fetch_cost_center_members World http base enterprise cost_center_id token (w1, tr1)
    = (Ok team, (w2, tr2)) ->
  to_remove_of team team = ∅ /\
  to_add_of team team = ∅ /\
  sync_cost_center_with_team World http base enterprise team_slug cost_center_id token (w, tr)
    = (Ok (mk_sync_report None None), (w2, tr2)) /\
  exists ex, tr2 = tr ++ ex /\ Forall (fun x => is_mutation x = false) ex.
Proof.
  intros Hteam Hcc.
  assert (Hrem : to_remove_of team team = ∅) by (unfold to_remove_of; set_solver).
  assert (Hadd : to_add_of team team = ∅) by (unfold to_add_of; set_solver).
  repeat split; [exact Hrem | exact Hadd | |].
  - rewrite (sync_after_fetch http _ _ _ _ _ _ _ _ _ _ Hteam Hcc).
    unfold reconcile. rewrite Hrem, Hadd. reflexivity.
  - apply fetch_team_reads in Hteam as (ex1 & -> & Hm1 & _).
    apply fetch_cost_center_reads in Hcc as (ex2 & -> & Hm2 & _).
    exists (ex1 ++ ex2). rewrite app_assoc. split; [reflexivity|].
    apply Forall_app; split; assumption.
Qed.

Lemma directory_answers rejects : answers_mutations (directory_server rejects).
Proof.
  intros w [v u h j] Hverb. unfold directory_server. simpl in *.
  destruct v; [contradiction| |];
    repeat match goal with
           | |- context [match ?x with _ => _ end] => destruct x
           end; eauto.
Defined.

Lemma endless_never_ends : never_ending endless.
Proof.
  intros w rq _. eexists. eexists. split; [reflexivity|].
  split; [reflexivity|]. split; [|vm_compute; reflexivity].
  eexists. split; [reflexivity|]. intros logins. eexists. reflexivity.
Defined.

Lemma removals_then_additions_in_sorted_order_witness :
  exists removals additions report w3 ex_rem ex_add,
    sync_cost_center_with_team directory busy_http api acme platform cc42 secret
      (busy_directory, [])
    = (Ok report, (w3, snd busy_reads2 ++ ex_rem ++ ex_add)) /\
    map fst ex_rem = map (delete_request api acme cc42 secret) (map HStr removals) /\
    map fst ex_add = map (post_request api acme cc42 secret) (map HStr additions) /\
    ascending removals /\ ascending additions /\
    map HStr removals ≡ₚ elements (to_remove_of busy_team busy_cost_center) /\
    map HStr additions ≡ₚ elements (to_add_of busy_team busy_cost_center).
Proof.
  apply (removals_then_additions_in_sorted_order busy_http api acme platform cc42 secret
           busy_directory [] busy_team (fst busy_reads1) (snd busy_reads1)
           busy_cost_center (fst busy_reads2) (snd busy_reads2)).
  - apply directory_answers.
  - vm_compute. reflexivity.
  - vm_compute. reflexivity.
  - vm_compute. reflexivity.
Defined.

(** The run of the example: the refused removal of [carol] is followed by
    the removal of [zoe] and by both additions. *)
Example busy_run :
  map summary
    (snd (snd (sync_cost_center_with_team directory busy_http api acme platform cc42 secret
                 (busy_directory, []))))
  = [ (GET, None, Some 200);
      (GET, None, Some 200);
      (DELETE, Some (users_payload (HStr "carol")), Some 500);
      (DELETE, Some (users_payload (HStr "zoe")), Some 204);
      (POST, Some (users_payload (HStr "alice")), Some 201);
      (POST, Some (users_payload (HStr "dave")), Some 201) ].
Proof. vm_compute. reflexivity. Qed.

Lemma fetch_failure_aborts_before_mutation_witness :
  existsb bad_read (snd (snd broken_run)) = true /\
  is_exit (fst broken_run) /\
  Forall (fun x => is_mutation x = false) (snd (snd broken_run)).
Proof.
  split; [vm_compute; reflexivity|].
  apply (fetch_failure_aborts_before_mutation scripted api acme platform cc42 secret
           broken_script (fst broken_run) (fst (snd broken_run)) (snd (snd broken_run))).
  - vm_compute. reflexivity.
  - vm_compute. reflexivity.
Defined.

Lemma second_run_makes_no_change_witness :
  to_remove_of settled_team settled_team = ∅ /\
  to_add_of settled_team settled_team = ∅ /\
  sync_cost_center_with_team directory plain_http api acme platform cc42 secret
    (settled_directory, [])
  = (Ok (mk_sync_report None None), (fst settled_reads2, snd settled_reads2)) /\
  exists ex, snd settled_reads2 = [] ++ ex /\ Forall (fun x => is_mutation x = false) ex.
Proof.
  apply (second_run_makes_no_change plain_http api acme platform cc42 secret
           settled_directory [] settled_team (fst settled_reads1) (snd settled_reads1)
           (fst settled_reads2) (snd settled_reads2)).
  - vm_compute. reflexivity.
  - vm_compute. reflexivity.
Defined.

(** The end-to-end scenario of the specification: the first run removes
    [carol] and adds [alice]; the second run only reads. *)
Example end_to_end :
  map summary (snd (snd first_run))
  = [ (GET, None, Some 200);
      (GET, None, Some 200);
      (DELETE, Some (users_payload (HStr "carol")), Some 204);
      (POST, Some (users_payload (HStr "alice")), Some 201) ] /\
  map summary
    (snd (snd (sync_cost_center_with_team directory plain_http api acme platform cc42 secret
                 (settled_directory, []))))
  = [ (GET, None, Some 200); (GET, None, Some 200) ].
Proof. vm_compute. split; reflexivity. Qed.

(** Three pages of two records: three reads and six logins. *)
Example three_pages_run :
  let run := fetch_enterprise_team_members (list (option response)) scripted
               api acme platform secret (three_pages, []) in
  fst run = Ok {[HStr "ann"; HStr "ben"; HStr "cat"; HStr "dan"; HStr "eve"; HStr "fay"]} /\
  length (snd (snd run)) = 3%nat /\
  map (fun x => rq_url (fst x)) (snd (snd run))
  = [ team_url api acme platform; "https://api.x/y?page=2"; "https://api.x/y?page=2" ]%string.
Proof. vm_compute. repeat split. Qed.

(** The endless listing of the example yields its one member after 200
    calls. *)
Example endless_run :
  let run := fetch_enterprise_team_members nat endless api acme platform secret (0%nat, []) in
  fst run = Ok {[HStr "octocat"]} /\ fst (snd run) = 200%nat /\
  length (snd (snd run)) = 200%nat.
Proof. vm_compute. repeat split. Qed.

(** ** Single mutations *)

(** C3, as stated, fails on status 202 (Accepted): neither the addition nor
    the removal reports success for it. *)
Lemma accepted_status_is_a_failure :
  In 202 created_accepted_no_content /\
  fst (add_user_to_cost_center (list (option response)) scripted api acme cc42
         (HStr "x") secret ([Some (mk_response 202 None None)], []))
  = Ok false /\
  fst (remove_user_from_cost_center (list (option response)) scripted api acme cc42
         (HStr "x") secret ([Some (mk_response 202 None None)], []))
  = Ok false.
Proof. vm_compute. repeat split. right. left. reflexivity. Qed.

(** C3, amended: an addition that receives a response succeeds exactly for
    the statuses 200, 201 and 204, a removal exactly for 200 and 204; with
    any other status the operation returns failure without raising, and a
    loop over usernames on a transport that answers attempts every username
    and counts the successes; when adding [x] is refused with status 500 and
    adding [y] succeeds, both are attempted and one success of two attempts
    is reported. *)
Theorem mutation_failure_is_per_item :
  (forall World (http : World -> request -> option response * World)
      base enterprise cost_center_id username token w tr r w',
     http w (post_request base enterprise cost_center_id token username) = (Some r, w') ->
     exists ok,
       add_user_to_cost_center World http base enterprise cost_center_id username token (w, tr)
       = (Ok ok, (w', tr ++ [(post_request base enterprise cost_center_id token username,
                              Some r)])) /\
       (ok = true <-> status_code r = 200 \/ status_code r = 201 \/ status_code r = 204)) /\
  (forall World (http : World -> request -> option response * World)
      base enterprise cost_center_id username token w tr r w',
     http w (delete_request base enterprise cost_center_id token username) = (Some r, w') ->
     exists ok,
       remove_user_from_cost_center World http base enterprise cost_center_id username token
         (w, tr)
       = (Ok ok, (w', tr ++ [(delete_request base enterprise cost_center_id token username,
                              Some r)])) /\
       (ok = true <-> status_code r = 200 \/ status_code r = 204)) /\
  (forall World (http : World -> request -> option response * World)
      base enterprise cost_center_id token usernames w tr,
     answers_mutations http ->
     (exists w' ex,
        count_successes World
          (fun u => add_user_to_cost_center World http base enterprise cost_center_id u token)
          usernames 0%nat (w, tr)
        = (Ok (count_true add_success (statuses ex)), (w', tr ++ ex)) /\
        map fst ex = map (post_request base enterprise cost_center_id token) usernames /\
        length (statuses ex) = length usernames) /\
     (exists w' ex,
        count_successes World
          (fun u => remove_user_from_cost_center World http base enterprise cost_center_id u token)
          usernames 0%nat (w, tr)
        = (Ok (count_true remove_success (statuses ex)), (w', tr ++ ex)) /\
        map fst ex = map (delete_request base enterprise cost_center_id token) usernames /\
        length (statuses ex) = length usernames)) /\
  (fst picky_run = Ok (mk_sync_report None (Some (mk_phase_report 1 2))) /\
   map summary (skipn 2 (snd (snd picky_run)))
   = [ (POST, Some (users_payload (HStr "x")), Some 500);
       (POST, Some (users_payload (HStr "y")), Some 201) ]).
Proof.
  split; [|split; [|split]].
  - intros World http base enterprise cost_center_id username token w tr r w' Hhttp.
    exists (add_success (status_code r)). split.
    + apply add_user_answered, Hhttp.
    + apply add_success_iff.
  - intros World http base enterprise cost_center_id username token w tr r w' Hhttp.
    exists (remove_success (status_code r)). split.
    + apply remove_user_answered, Hhttp.
    + apply remove_success_iff.
  - intros World http base enterprise cost_center_id token usernames w tr Hans. split.
    + apply (count_successes_answered http _ _ _
               (add_user_reports http base enterprise cost_center_id token)
               ltac:(discriminate) Hans usernames 0%nat w tr).
    + apply (count_successes_answered http _ _ _
               (remove_user_reports http base enterprise cost_center_id token)
               ltac:(discriminate) Hans usernames 0%nat w tr).
  - vm_compute. split; reflexivity.
Qed.

Lemma mutation_failure_is_per_item_witness :
  (exists ok,
     add_user_to_cost_center directory picky_http api acme cc42 (HStr "x") secret
       (mk_directory [] [], [])
     = (Ok ok, (mk_directory [] [],
                [] ++ [(post_request api acme cc42 secret (HStr "x"),
                        Some (mk_response 500 None None))])) /\
     (ok = true <-> 500 = 200 \/ 500 = 201 \/ 500 = 204)) /\
  (exists w' ex,
     count_successes directory
       (fun u => add_user_to_cost_center directory picky_http api acme cc42 u secret)
       [HStr "x"; HStr "y"] 0%nat (mk_directory [] [], [])
     = (Ok (count_true add_success (statuses ex)), (w', [] ++ ex)) /\
     map fst ex = map (post_request api acme cc42 secret) [HStr "x"; HStr "y"] /\
     length (statuses ex) = 2%nat).
Proof.
  destruct mutation_failure_is_per_item as (Hadd & _ & Hloop & _). split.
  - apply (Hadd directory picky_http api acme cc42 (HStr "x") secret (mk_directory [] []) []
                (mk_response 500 None None) (mk_directory [] [])).
    vm_compute. reflexivity.
  - apply (Hloop directory picky_http api acme cc42 secret [HStr "x"; HStr "y"]
                 (mk_directory [] []) [] (directory_answers _)).
Defined.

(** ** The link parser *)

(** C6, as stated, fails for a URL that holds a comma: the header is one
    descriptor whose relation value is [next], and nothing is returned. *)
Lemma next_link_with_comma_is_missed :
  spec_next comma_descriptors = Some "https://api.x/y?ids=1,2&page=2"%string /\
  parse_next_link (Some (render_header " " comma_descriptors)) = None.
Proof. vm_compute. split; reflexivity. Qed.

(** C6, amended: for a header made of descriptors [<url>; rel="value"]
    separated by a comma and white space, in which every URL is non-empty
    and holds no comma, [>] or double quote and every relation value holds
    no comma or double quote, [parse_next_link] returns the URL of the first
    descriptor whose relation value is exactly [next], and [None] when there
    is none or the header is absent; the header of the specification's
    example yields [https://api.x/y?page=2]. *)
Theorem next_link_of_plain_header :
  parse_next_link None = None /\
  (forall ws ds,
     all_space ws = true -> forallb plain_descriptor ds = true ->
     parse_next_link (Some (render_header ws ds)) = spec_next ds) /\
  (forall ws ds,
     all_space ws = true -> forallb plain_descriptor ds = true ->
     forallb (fun d => negb (String.eqb (snd d) "next")) ds = true ->
     parse_next_link (Some (render_header ws ds)) = None) /\
  (spec_header = render_header " " spec_descriptors /\
   parse_next_link (Some spec_header) = Some "https://api.x/y?page=2"%string).
Proof.
  split; [reflexivity|]. split; [exact parse_plain_header|]. split.
  - intros ws ds Hws Hds Hnone. rewrite (parse_plain_header ws ds Hws Hds).
    clear Hds. induction ds as [|[url value] ds IH]; [reflexivity|].
    cbn [forallb snd spec_next] in *. apply andb_true_iff in Hnone as [Hv Hnone].
    apply negb_true_iff in Hv. rewrite Hv. apply IH, Hnone.
  - split; reflexivity.
Qed.

Lemma next_link_of_plain_header_witness :
  all_space " " = true /\ forallb plain_descriptor spec_descriptors = true /\
  parse_next_link (Some (render_header " " spec_descriptors)) = spec_next spec_descriptors.
Proof.
  split; [reflexivity|]. split; [reflexivity|].
  apply (proj1 (proj2 next_link_of_plain_header) " "%string spec_descriptors); reflexivity.
Defined.

(** ** The extractor *)

Lemma first_listed_head keys d :
  first_listed keys d
  = option_map JList (head (omap (fun k => dict_lookup d k ≫= list_items) keys)).
Proof.
  induction keys as [|k keys IH]; [reflexivity|].
  cbn [first_listed omap list_omap]. destruct (dict_lookup d k) as [[]|]; simpl; try exact IH.
  reflexivity.
Qed.

Lemma first_records_head vals :
  first_records vals = head (List.filter looks_like_records vals).
Proof.
  induction vals as [|v vals IH]; [reflexivity|].
  simpl. destruct (looks_like_records v); [reflexivity | exact IH].
Qed.

Lemma extract_memberships_rules payload :
  extract_memberships payload = spec_extract payload.
Proof.
  destruct payload; try reflexivity. unfold extract_memberships, spec_extract.
  rewrite first_listed_head, first_records_head.
  destruct (head (omap _ priority_keys)); reflexivity.
Qed.

Lemma record_login_nested m v :
  nested_login m = Some v -> truthy v = true -> record_login m = v.
Proof.
  unfold nested_login, record_login, dict_get.
  destruct (dict_lookup m "user") as [[| | | | |u]|]; try discriminate.
  intros Hv Ht. unfold py_or at 2.
  destruct u as [|kv u]; [discriminate|]. cbn [truthy].
  rewrite Hv. unfold py_or. rewrite Ht. reflexivity.
Qed.

Lemma record_login_fallback m :
  absent_or_falsy (nested_login m) -> record_login m = dict_get m "login".
Proof.
  unfold nested_login, record_login, dict_get at 1, absent_or_falsy.
  destruct (dict_lookup m "user") as [user|]; [|reflexivity].
  unfold py_or at 2. destruct (truthy user) eqn:Hu; [|reflexivity].
  destruct user; try reflexivity.
  unfold dict_get at 1. destruct (dict_lookup d "login") as [v|]; [|reflexivity].
  intros Hf. unfold py_or. rewrite Hf. reflexivity.
Qed.

Lemma nonempty_true s : s <> EmptyString -> PyStr.nonempty s = true.
Proof. destruct s; [congruence | reflexivity]. Qed.

(** ** The cost-center document *)

(** C9: a document read with status 200 can make the fetch raise.  When
    [resources] is a list of typed entries, or [null], [resources.get]
    raises [AttributeError]; a [users] value that is [null] and a document
    that is [null] raise [TypeError]. *)
Theorem cost_center_document_can_raise :
  cost_center_logins listed_resources = Raise AttributeError /\
  fst (fetch_cost_center_members (list (option response)) scripted api acme cc42 secret
         ([Some (mk_response 200 (Some listed_resources) None)], []))
  = Raise AttributeError /\
  cost_center_logins (JDict [("resources"%string, JNull)]) = Raise AttributeError /\
  cost_center_logins (JDict [("users"%string, JNull)]) = Raise TypeError /\
  cost_center_logins JNull = Raise TypeError.
Proof. vm_compute. repeat split. Qed.

(** C10, as stated, fails when the [resources] mapping holds a [users]
    value that is a mapping: its keys are taken as logins. *)
Lemma users_mapping_is_iterated :
  cost_center_logins keyed_users = Ok {[HStr "alice"]}.
Proof. vm_compute. reflexivity. Qed.

(** C10, amended: a document with a [resources] key is read from that key
    alone, whatever else it holds; when [resources] is a mapping without a
    [users] key the result is the empty set, also next to a top-level
    [users] list. *)
Theorem resources_key_takes_precedence :
  (forall d r,
     dict_lookup d "resources" = Some r ->
     cost_center_logins (JDict d) = cost_center_logins (JDict [("resources"%string, r)])) /\
  (forall d rd,
     dict_lookup d "resources" = Some (JDict rd) ->
     dict_lookup rd "users" = None ->
     cost_center_logins (JDict d) = Ok ∅).
Proof.
  split.
  - intros d r Hr. unfold cost_center_logins. simpl. rewrite Hr. simpl.
    unfold dict_get_default. rewrite Hr. reflexivity.
  - intros d rd Hr Hu. unfold cost_center_logins. simpl. rewrite Hr. simpl.
    unfold dict_get_default. rewrite Hr. simpl. unfold dict_get_default. rewrite Hu.
    reflexivity.
Qed.

Lemma resources_key_takes_precedence_witness :
  dict_lookup shadowed_users "users"
  = Some (JList [JStr "bob"; JDict [("login"%string, JStr "carol")]]) /\
  cost_center_logins (JDict shadowed_users) = Ok ∅.
Proof.
  split; [reflexivity|].
  apply (proj2 resources_key_takes_precedence shadowed_users [("projects"%string, JList [])]);
    reflexivity.
Defined.

(** ** Further properties of the link parser *)

Section LinkParser.

#[local] Arguments String.append !_ _ / : simpl nomatch.

Implicit Types (s t p : string) (c a : ascii).

(** [find] either reports absence or the length of the prefix before the
    first occurrence. *)
Lemma find_first c s :
  (PyStr.find c s = -1 /\ occurs c s = false) \/
  (exists pre post, s = pre +:+ String c post /\ occurs c pre = false /\
     PyStr.find c s = Z.of_nat (String.length pre)).
Proof.
  induction s as [|a s IH]; simpl; [left; split; reflexivity|].
  destruct (Ascii.eqb_spec a c) as [->|Hne].
  - right. exists EmptyString, s. repeat split.
  - destruct IH as [[Hf Ho]|(pre & post & -> & Ho & Hf)].
    + left. rewrite Hf, Ho. split; reflexivity.
    + right. exists (String a pre), post. simpl.
      apply Ascii.eqb_neq in Hne. rewrite Hne, Ho, Hf. repeat split.
      destruct (Z.of_nat (String.length pre) <? 0) eqn:E; [apply Z.ltb_lt in E|]; lia.
Qed.

Lemma occurs_drop c n s : occurs c s = false -> occurs c (PyStr.drop n s) = false.
Proof.
  revert s. induction n as [|n IH]; intros [|a s]; simpl; try reflexivity; try tauto.
  intros H. apply orb_false_iff in H as [_ H]. apply IH, H.
Qed.

Lemma take_drop_prefix n pre t :
  (n <= String.length pre)%nat ->
  PyStr.take (String.length pre - n) (PyStr.drop n (pre +:+ t)) = PyStr.drop n pre.
Proof.
  revert pre. induction n as [|n IH]; intros pre Hn.
  - simpl. rewrite Nat.sub_0_r. apply take_append.
  - destruct pre as [|a pre]; simpl in *; [lia|]. apply IH. lia.
Qed.

Lemma drop_nonempty n s : (n < String.length s)%nat -> PyStr.nonempty (PyStr.drop n s) = true.
Proof.
  revert s. induction n as [|n IH]; intros [|a s]; simpl; try lia; try reflexivity.
  intros H. apply IH. lia.
Qed.

Lemma split_parts_without c s :
  Forall (fun p => occurs c p = false) (PyStr.split c s).
Proof.
  induction s as [|a s IH]; simpl; [repeat constructor|].
  destruct (Ascii.eqb a c) eqn:E.
  - constructor; [reflexivity | exact IH].
  - destruct (PyStr.split c s) as [|p ps]; [repeat constructor; simpl; rewrite E; reflexivity|].
    inversion IH; subst. constructor; [simpl; rewrite E; assumption | assumption].
Qed.

Lemma occurs_lstrip c s : occurs c s = false -> occurs c (PyStr.lstrip s) = false.
Proof.
  induction s as [|a s IH]; simpl; [reflexivity|].
  intros H. destruct (PyStr.is_space a); [|exact H].
  apply orb_false_iff in H as [_ H]. apply IH, H.
Qed.

Lemma occurs_rstrip c s : occurs c s = false -> occurs c (PyStr.rstrip s) = false.
Proof.
  induction s as [|a s IH]; simpl; [reflexivity|].
  intros H. apply orb_false_iff in H as [Ha H]. specialize (IH H).
  destruct (PyStr.rstrip s); simpl.
  - destruct (PyStr.is_space a); simpl; [reflexivity | rewrite Ha; reflexivity].
  - simpl in IH. rewrite Ha. exact IH.
Qed.

Lemma rstrip_prefix s : exists t, s = PyStr.rstrip s +:+ t.
Proof.
  induction s as [|a s (t & IH)]; simpl; [exists EmptyString; reflexivity|].
  destruct (PyStr.rstrip s) eqn:E.
  - destruct (PyStr.is_space a).
    + exists (String a s). reflexivity.
    + exists t. simpl. rewrite IH at 1. reflexivity.
  - exists t. simpl. rewrite IH at 1. reflexivity.
Qed.

Lemma contains_tail p a s : PyStr.contains p s = true -> PyStr.contains p (String a s) = true.
Proof. intros H. simpl. rewrite H. apply orb_true_r. Qed.

Lemma contains_lstrip p s : PyStr.contains p (PyStr.lstrip s) = true -> PyStr.contains p s = true.
Proof.
  induction s as [|a s IH]; [tauto|]. cbn [PyStr.lstrip].
  destruct (PyStr.is_space a); [|tauto]. intros H. apply contains_tail, IH, H.
Qed.

Lemma contains_inside p pre s post :
  PyStr.contains p s = true -> PyStr.contains p (pre +:+ s +:+ post) = true.
Proof.
  intros H. apply contains_elim in H as (pre' & post' & ->).
  replace (pre +:+ (pre' +:+ p +:+ post') +:+ post)
    with ((pre +:+ pre') +:+ p +:+ (post' +:+ post))
    by (rewrite !append_assoc; reflexivity).
  apply contains_intro.
Qed.

Lemma contains_strip p s : PyStr.contains p (PyStr.strip s) = true -> PyStr.contains p s = true.
Proof.
  unfold PyStr.strip. intros H. apply contains_lstrip.
  destruct (rstrip_prefix (PyStr.lstrip s)) as [t Ht]. rewrite Ht.
  apply (contains_inside p EmptyString _ t), H.
Qed.

(** Every part of a split is a piece of the string that was split. *)
Lemma split_parts_inside c s :
  exists q qs post,
    PyStr.split c s = q :: qs /\ s = q +:+ post /\
    Forall (fun p => exists pre post', s = pre +:+ p +:+ post') qs.
Proof.
  induction s as [|a s (q & qs & post & Hs & Hq & Hqs)]; simpl.
  - exists EmptyString, [], EmptyString. repeat split. constructor.
  - destruct (Ascii.eqb a c).
    + exists EmptyString, (q :: qs), (String a s).
      split; [rewrite Hs; reflexivity|]. split; [reflexivity|].
      constructor.
      * exists (String a EmptyString), post. simpl. rewrite Hq at 1. reflexivity.
      * eapply Forall_impl; [exact Hqs|]. intros p (pre & post' & Hp).
        exists (String a pre), post'. simpl. rewrite Hp at 1. reflexivity.
    + rewrite Hs. exists (String a q), qs, post.
      split; [reflexivity|]. split.
      * simpl. rewrite Hq at 1. reflexivity.
      * eapply Forall_impl; [exact Hqs|]. intros p (pre & post' & Hp).
        exists (String a pre), post'. simpl. rewrite Hp at 1. reflexivity.
Qed.

Lemma contains_split_part p c s part :
  In part (PyStr.split c s) -> PyStr.contains p part = true -> PyStr.contains p s = true.
Proof.
  destruct (split_parts_inside c s) as (q & qs & post & -> & Hq & Hqs).
  intros [<-|Hin] Hc.
  - rewrite Hq. apply (contains_inside p EmptyString _ post), Hc.
  - rewrite Forall_forall in Hqs.
    destruct (Hqs part (proj2 (list_elem_of_In _ _) Hin)) as (pre & post' & ->).
    apply contains_inside, Hc.
Qed.

Lemma scan_parts_found parts url :
  scan_parts parts = Some url ->
  exists part, In part parts /\
    let start := PyStr.find PyStr.langle part + 1 in
    let end_ := PyStr.find PyStr.rangle part in
    PyStr.contains rel_next part = true /\ 0 < start /\ start < end_ /\
    url = PyStr.slice part start end_.
Proof.
  induction parts as [|part parts IH]; [discriminate|]. cbn [scan_parts].
  destruct (PyStr.contains rel_next part) eqn:Hc.
  - destruct ((PyStr.find PyStr.langle part + 1 >? 0)
              && (PyStr.find PyStr.rangle part >? PyStr.find PyStr.langle part + 1)) eqn:Hg.
    + intros [= <-]. exists part. apply andb_true_iff in Hg as [H1 H2].
      apply Z.gtb_lt in H1, H2. split; [left; reflexivity|]. repeat split; assumption.
    + intros H. destruct (IH H) as (p & Hin & Hp). exists p. split; [right; exact Hin | exact Hp].
  - intros H. destruct (IH H) as (p & Hin & Hp). exists p. split; [right; exact Hin | exact Hp].
Qed.

Lemma scan_parts_none parts :
  Forall (fun part => PyStr.contains rel_next part = false) parts -> scan_parts parts = None.
Proof.
  induction 1 as [|part parts Hc _ IH]; [reflexivity|].
  cbn [scan_parts]. rewrite Hc. exact IH.
Qed.

End LinkParser.

(** A cursor is a non-empty piece of one part of the header, cut before
    the first [>] of that part. *)
Lemma parse_next_link_piece link_header url :
  parse_next_link link_header = Some url ->
  PyStr.nonempty url = true /\
  occurs PyStr.comma url = false /\
  occurs PyStr.rangle url = false.
Proof.
  unfold parse_next_link. destruct link_header as [h|]; [|discriminate].
  destruct (negb (PyStr.nonempty h)); [discriminate|]. intros Hscan.
  apply scan_parts_found in Hscan as (part & Hin & _ & Hstart & Hend & ->).
  apply in_map_iff in Hin as (p & <- & Hp).
  assert (Hcomma : occurs PyStr.comma (PyStr.strip p) = false).
  { unfold PyStr.strip. apply occurs_rstrip, occurs_lstrip.
    pose proof (split_parts_without PyStr.comma h) as Hall.
    rewrite Forall_forall in Hall. apply Hall, list_elem_of_In, Hp. }
  set (part := PyStr.strip p) in *.
  destruct (find_first PyStr.rangle part) as [[Hf _]|(pre & post & Hpart & Hpre & Hf)];
    [lia|].
  rewrite Hf in *. unfold PyStr.slice.
  set (n := Z.to_nat (PyStr.find PyStr.langle part + 1)).
  assert (Hn : (n < String.length pre)%nat) by (unfold n; lia).
  replace (Z.to_nat (Z.of_nat (String.length pre) - (PyStr.find PyStr.langle part + 1)))
    with (String.length pre - n)%nat by (unfold n; lia).
  rewrite Hpart, take_drop_prefix by lia.
  rewrite Hpart, occurs_append in Hcomma. apply orb_false_iff in Hcomma as [Hcomma _].
  split; [apply drop_nonempty, Hn|]. split; apply occurs_drop; assumption.
Qed.

(** X1: a cursor returned by [parse_next_link] is never empty and holds
    neither a comma nor [>]; so the loop test [while next_url] after a page
    fails only when no cursor was found. *)
Theorem next_link_is_a_nonempty_piece link_header url :
  parse_next_link link_header = Some url ->
  PyStr.nonempty url = true /\
  occurs PyStr.comma url = false /\
  occurs PyStr.rangle url = false.
Proof. apply parse_next_link_piece. Qed.

Lemma next_link_is_a_nonempty_piece_witness :
  parse_next_link (Some spec_header) = Some "https://api.x/y?page=2"%string /\
  PyStr.nonempty "https://api.x/y?page=2" = true /\
  occurs PyStr.comma "https://api.x/y?page=2" = false /\
  occurs PyStr.rangle "https://api.x/y?page=2" = false.
Proof.
  split; [reflexivity|].
  apply (next_link_is_a_nonempty_piece (Some spec_header)). reflexivity.
Defined.

(** X2: a header in which the text [rel="next"] does not occur yields no
    cursor, whatever its form. *)
Theorem header_without_next_relation_yields_nothing h :
  PyStr.contains rel_next h = false -> parse_next_link (Some h) = None.
Proof.
  intros Hnone. unfold parse_next_link. destruct (negb (PyStr.nonempty h)); [reflexivity|].
  apply scan_parts_none, Forall_forall. intros part Hin.
  apply list_elem_of_In, in_map_iff in Hin as (p & <- & Hp).
  destruct (PyStr.contains rel_next (PyStr.strip p)) eqn:Hc; [|reflexivity].
  apply contains_strip in Hc. rewrite (contains_split_part _ _ _ _ Hp Hc) in Hnone.
  discriminate.
Qed.

Lemma header_without_next_relation_yields_nothing_witness :
  PyStr.contains rel_next
    (render_header " " [("https://api.x/y?page=1", "prev"); ("https://api.x/y?page=9", "last")]%string)
  = false /\
  parse_next_link
    (Some (render_header " "
             [("https://api.x/y?page=1", "prev"); ("https://api.x/y?page=9", "last")]%string))
  = None.
Proof.
  split; [reflexivity|].
  apply header_without_next_relation_yields_nothing. reflexivity.
Defined.

(** ** Further properties of the mutation phases *)

Lemma py_sorted_permutation (s : gset hashable) l :
  py_sorted s = Ok l -> l ≡ₚ elements s.
Proof.
  unfold py_sorted. destruct (_ || _); [|discriminate].
  intros [= <-]. apply merge_sort_Permutation.
Qed.

Lemma py_sorted_raises (s : gset hashable) e : py_sorted s = Raise e -> e = TypeError.
Proof. unfold py_sorted. destruct (_ || _); [discriminate|]. congruence. Qed.

Lemma py_sorted_mixed (s : gset hashable) : mixed s -> py_sorted s = Raise TypeError.
Proof.
  intros (a & n & Ha & Hn). unfold py_sorted.
  assert (H1 : forallb is_str (elements s) = false).
  { apply not_true_is_false. intros H. rewrite forallb_forall in H.
    specialize (H (HInt n)). simpl in H.
    assert (In (HInt n) (elements s)) by (apply list_elem_of_In, elem_of_elements, Hn).
    specialize (H H0). discriminate. }
  assert (H2 : forallb (fun h => negb (is_str h)) (elements s) = false).
  { apply not_true_is_false. intros H. rewrite forallb_forall in H.
    specialize (H (HStr a)). simpl in H.
    assert (In (HStr a) (elements s)) by (apply list_elem_of_In, elem_of_elements, Ha).
    specialize (H H0). discriminate. }
  rewrite H1, H2. reflexivity.
Qed.

Lemma set_truthy_nonempty (s : gset hashable) h : h ∈ s -> set_truthy s = true.
Proof.
  intros Hin. unfold set_truthy. apply negb_true_iff, bool_decide_eq_false.
  intros ->. set_solver.
Qed.

Lemma count_true_le {A} (f : A -> bool) l : (count_true f l <= length l)%nat.
Proof.
  unfold count_true. induction l as [|a l IH]; simpl; [lia|].
  destruct (f a); simpl; lia.
Qed.

Lemma statuses_length xs : (length (statuses xs) <= length xs)%nat.
Proof.
  unfold statuses. induction xs as [|[rq [r|]] xs IH]; cbn in *; lia.
Qed.

Lemma requests_target (mk : hashable -> request) (l : list hashable) (ex : list exchange) :
  map fst ex = map mk l -> Forall (fun x => exists u, In u l /\ fst x = mk u) ex.
Proof.
  revert l. induction ex as [|x ex IH]; intros [|u l]; simpl; try discriminate.
  - constructor.
  - intros [= Hx Hex]. constructor; [exists u; auto|].
    eapply Forall_impl; [apply (IH l Hex)|]. intros y (v & Hv & Hy). exists v. auto.
Qed.

Section Phases.

Context {World : Type} (http : World -> request -> option response * World).

(** A loop over usernames either attempts all of them and counts the
    successes, or stops at the first call that raised. *)
Lemma count_successes_outcome op mk okb :
  reports http op mk okb ->
  forall usernames count w tr res w' tr',
    count_successes World op usernames count (w, tr) = (res, (w', tr')) ->
    exists ex,
      tr' = tr ++ ex /\
      map fst ex = map mk (take (length ex) usernames) /\
      ((res = Ok (count + count_true okb (statuses ex))%nat /\
        length ex = length usernames /\
        Forall (fun x => snd x <> None) ex) \/
       (res = Raise RequestException /\
        exists ex0 rq, ex = ex0 ++ [(rq, None)] /\ Forall (fun x => snd x <> None) ex0)).
Proof.
  intros Hop. induction usernames as [|u l IH]; intros count w tr res w' tr' Hrun.
  - inversion Hrun; subst. exists []. rewrite app_nil_r. split; [reflexivity|].
    split; [reflexivity|]. left. simpl. rewrite Nat.add_0_r. repeat split. constructor.
  - simpl in Hrun. unfold bind in Hrun. specialize (Hop u w tr).
    destruct (http w (mk u)) as [[r|] w1]; rewrite Hop in Hrun.
    + apply IH in Hrun as (ex & -> & Hreq & Hout).
      exists ((mk u, Some r) :: ex). rewrite <- app_assoc. split; [reflexivity|].
      split; [simpl; rewrite Hreq; reflexivity|].
      destruct Hout as [(-> & Hlen & Hall)|(-> & ex0 & rq & -> & Hall)].
      * left. split; [|split; [simpl; congruence | constructor; [discriminate | exact Hall]]].
        f_equal. unfold count_true. simpl. destruct (okb (status_code r)); simpl; lia.
      * right. split; [reflexivity|]. exists ((mk u, Some r) :: ex0), rq.
        split; [reflexivity | constructor; [discriminate | exact Hall]].
    + inversion Hrun; subst. exists [(mk u, None)]. split; [reflexivity|].
      split; [reflexivity|]. right. split; [reflexivity|].
      exists [], (mk u). split; [reflexivity | constructor].
Qed.

(** The outcome of a phase on any transport. *)
Lemma phase_outcome op mk okb (s : gset hashable) :
  reports http op mk okb ->
  forall w tr res w' tr',
    phase World op s (w, tr) = (res, (w', tr')) ->
    exists ex,
      tr' = tr ++ ex /\
      Forall (fun x => exists u, u ∈ s /\ fst x = mk u) ex /\
      (forall rep, res = Ok rep ->
         match rep with
         | None => s = ∅ /\ ex = []
         | Some r =>
             s <> ∅ /\ attempted r = size s /\ length ex = size s /\
             succeeded r = count_true okb (statuses ex) /\
             (succeeded r <= attempted r)%nat
         end) /\
      (forall e, res = Raise e ->
         (e = TypeError /\ ex = [] /\ set_truthy s = true /\ py_sorted s = Raise TypeError) \/
         (e = RequestException /\ exists ex0 rq, ex = ex0 ++ [(rq, None)])).
Proof.
  intros Hop w tr res w' tr'. unfold phase, bind, lift, ret.
  destruct (set_truthy s) eqn:Htruthy.
  - destruct (py_sorted s) as [l|e] eqn:Hsorted.
    + destruct (count_successes World op l 0%nat (w, tr)) as [r [w1 tr1]] eqn:Hrun.
      apply (count_successes_outcome _ _ _ Hop) in Hrun as (ex & -> & Hreq & Hout).
      pose proof (py_sorted_permutation s l Hsorted) as Hperm.
      assert (Htarget : Forall (fun x => exists u, u ∈ s /\ fst x = mk u) ex).
      { eapply Forall_impl; [apply (requests_target _ _ _ Hreq)|].
        intros x (u & Hu & Hx). exists u. split; [|exact Hx].
        apply elem_of_elements. rewrite <- Hperm. apply list_elem_of_In.
        apply list_elem_of_In in Hu. apply list_elem_of_In.
        eapply subseteq_take, Hu. }
      destruct Hout as [(-> & Hlen & _)|(-> & ex0 & rq & Hex & _)].
      * intros [= <- <- <-]. exists ex. split; [reflexivity|]. split; [exact Htarget|].
        split; [|discriminate]. intros rep [= <-]. simpl.
        assert (Hsize : length ex = size s).
        { rewrite Hlen. unfold size, set_size. simpl. apply Permutation_length, Hperm. }
        split; [intros ->; discriminate|]. repeat split; try assumption.
        rewrite <- Hsize. etransitivity; [apply count_true_le | apply statuses_length].
      * intros [= <- <- <-]. exists ex. split; [reflexivity|]. split; [exact Htarget|].
        split; [discriminate|]. intros e [= <-]. right. split; [reflexivity|]. eauto.
    + intros [= <- <- <-]. exists []. rewrite app_nil_r. split; [reflexivity|].
      split; [constructor|]. split; [discriminate|].
      intros e' [= <-]. left. pose proof (py_sorted_raises _ _ Hsorted) as ->. auto.
  - intros [= <- <- <-]. exists []. rewrite app_nil_r. split; [reflexivity|].
    split; [constructor|]. split; [|discriminate].
    intros rep [= <-]. split; [apply set_truthy_false, Htruthy | reflexivity].
Qed.

End Phases.

Section Plans.

Context {World : Type} (http : World -> request -> option response * World).

Lemma log_sorted_outcome (s : gset hashable) (st : state World) res st' :
  log_sorted World s st = (res, st') ->
  st' = st /\
  ((res = Ok tt /\ (set_truthy s = true -> exists l, py_sorted s = Ok l)) \/
   res = Raise TypeError).
Proof.
  unfold log_sorted, bind, lift, ret. destruct (set_truthy s).
  - destruct (py_sorted s) as [l|e] eqn:Hs; intros [= <- <-]; [eauto 6|].
    apply py_sorted_raises in Hs as ->. auto.
  - intros [= <- <-]. split; [reflexivity|]. left. split; [reflexivity | discriminate].
Qed.

(** The outcome of applying a plan on any transport. *)
Lemma reconcile_outcome base enterprise cost_center_id token
    (team cost_center : gset hashable) w tr res w' tr' :
  reconcile World http base enterprise cost_center_id token team cost_center (w, tr)
    = (res, (w', tr')) ->
  exists ex_rem ex_add,
    tr' = tr ++ ex_rem ++ ex_add /\
    Forall (fun x => exists u, u ∈ to_remove_of team cost_center /\
              fst x = delete_request base enterprise cost_center_id token u) ex_rem /\
    Forall (fun x => exists u, u ∈ to_add_of team cost_center /\
              fst x = post_request base enterprise cost_center_id token u) ex_add /\
    (forall report, res = Ok report ->
       match removal_report report with
       | None => to_remove_of team cost_center = ∅ /\ ex_rem = []
       | Some r => to_remove_of team cost_center <> ∅ /\
                   attempted r = size (to_remove_of team cost_center) /\
                   length ex_rem = attempted r /\
                   succeeded r = count_true remove_success (statuses ex_rem) /\
                   (succeeded r <= attempted r)%nat
       end /\
       match addition_report report with
       | None => to_add_of team cost_center = ∅ /\ ex_add = []
       | Some r => to_add_of team cost_center <> ∅ /\
                   attempted r = size (to_add_of team cost_center) /\
                   length ex_add = attempted r /\
                   succeeded r = count_true add_success (statuses ex_add) /\
                   (succeeded r <= attempted r)%nat
       end) /\
    (forall e, res = Raise e ->
       (e = TypeError /\ ex_rem = [] /\ ex_add = []) \/
       (e = RequestException /\
        exists ex0 rq, ex_rem ++ ex_add = ex0 ++ [(rq, None)])).
Proof.
  assert (Hearly : forall res0 : result sync_report, res0 = Raise TypeError ->
    exists ex_rem ex_add : list exchange,
      tr = tr ++ ex_rem ++ ex_add /\
      Forall (fun x => exists u, u ∈ to_remove_of team cost_center /\
                fst x = delete_request base enterprise cost_center_id token u) ex_rem /\
      Forall (fun x => exists u, u ∈ to_add_of team cost_center /\
                fst x = post_request base enterprise cost_center_id token u) ex_add /\
      (forall report, res0 = Ok report ->
         match removal_report report with
         | None => to_remove_of team cost_center = ∅ /\ ex_rem = []
         | Some r => to_remove_of team cost_center <> ∅ /\
                     attempted r = size (to_remove_of team cost_center) /\
                     length ex_rem = attempted r /\
                     succeeded r = count_true remove_success (statuses ex_rem) /\
                     (succeeded r <= attempted r)%nat
         end /\
         match addition_report report with
         | None => to_add_of team cost_center = ∅ /\ ex_add = []
         | Some r => to_add_of team cost_center <> ∅ /\
                     attempted r = size (to_add_of team cost_center) /\
                     length ex_add = attempted r /\
                     succeeded r = count_true add_success (statuses ex_add) /\
                     (succeeded r <= attempted r)%nat
         end) /\
      (forall e, res0 = Raise e ->
         (e = TypeError /\ ex_rem = [] /\ ex_add = []) \/
         (e = RequestException /\
          exists ex0 rq, ex_rem ++ ex_add = ex0 ++ [(rq, None)]))).
  { intros res0 ->. exists [], []. rewrite app_nil_r. split; [reflexivity|].
    split; [constructor|]. split; [constructor|]. split; [discriminate|].
    intros e [= <-]. auto. }
  unfold reconcile. unfold bind at 1.
  destruct (log_sorted _ _ (w, tr)) as [r1 st1] eqn:H1.
  apply log_sorted_outcome in H1 as [-> [[-> _]| ->]];
    [|intros [= <- <- <-]; apply Hearly; reflexivity].
  unfold bind at 1.
  destruct (log_sorted _ _ (w, tr)) as [r2 st2] eqn:H2.
  apply log_sorted_outcome in H2 as [-> [[-> Hadd]| ->]];
    [|intros [= <- <- <-]; apply Hearly; reflexivity].
  clear Hearly. unfold bind at 1.
  destruct (phase _ _ _ (w, tr)) as [r3 [w3 tr3]] eqn:H3.
  apply (phase_outcome http _ _ _ _ (remove_user_reports http _ _ _ _)) in H3
    as (ex3 & -> & Ht3 & Hok3 & Herr3).
  destruct r3 as [rep3|e3].
  - unfold bind at 1.
    destruct (phase _ _ _ (w3, tr ++ ex3)) as [r4 [w4 tr4]] eqn:H4.
    apply (phase_outcome http _ _ _ _ (add_user_reports http _ _ _ _)) in H4
      as (ex4 & -> & Ht4 & Hok4 & Herr4).
    specialize (Hok3 rep3 eq_refl).
    destruct r4 as [rep4|e4]; intros [= <- <- <-]; exists ex3, ex4;
      rewrite <- app_assoc; (split; [reflexivity|]); (split; [exact Ht3|]);
      (split; [exact Ht4|]); split; try discriminate.
    + intros report [= <-]. specialize (Hok4 rep4 eq_refl). simpl. split.
      * destruct rep3 as [r|]; [|tauto]. destruct Hok3 as (Hne & Ha & Hl & Hs & Hle).
        repeat split; congruence || assumption.
      * destruct rep4 as [r|]; [|tauto]. destruct Hok4 as (Hne & Ha & Hl & Hs & Hle).
        repeat split; congruence || assumption.
    + intros e [= <-].
      destruct (Herr4 e4 eq_refl) as [(_ & _ & Htruthy & Hraise)|(-> & ex0 & rq & ->)].
      * destruct (Hadd Htruthy) as [l Hl]. congruence.
      * right. split; [reflexivity|]. exists (ex3 ++ ex0), rq. rewrite app_assoc. reflexivity.
  - intros [= <- <- <-]. exists ex3, []. rewrite !app_nil_r.
    split; [reflexivity|]. split; [exact Ht3|]. split; [constructor|].
    split; [discriminate|]. intros e [= <-].
    destruct (Herr3 e3 eq_refl) as [(-> & -> & _)|(-> & ex0 & rq & ->)]; [auto|].
    right. split; [reflexivity|]. eauto.
Qed.

End Plans.

(** ** Further properties of the reads *)

Lemma cursor_falsy_is_none h :
  url_truthy (parse_next_link h) = false -> parse_next_link h = None.
Proof.
  destruct (parse_next_link h) as [u|] eqn:Hp; [|reflexivity].
  destruct (parse_next_link_piece h u Hp) as [Hne _].
  simpl. rewrite Hne. discriminate.
Qed.

Section Listing.

Context {World : Type} (http : World -> request -> option response * World).

(** The calls of the pagination loop on any transport. *)
Lemma team_loop_trace headers fuel :
  forall next_url page logins w tr res w' tr',
    page <= 200 -> 201 <= Z.of_nat fuel + page ->
    team_loop World http fuel headers next_url page logins (w, tr) = (res, (w', tr')) ->
    exists ex,
      tr' = tr ++ ex /\
      Forall (fun x => fst x = mk_request GET (rq_url (fst x)) headers None) ex /\
      Z.of_nat (length ex) <= 201 - page /\
      (url_truthy next_url = false -> ex = []) /\
      (url_truthy next_url = true ->
         ex <> [] /\ chained (default EmptyString next_url) ex) /\
      (forall logins', res = Ok logins' ->
         accumulate ex logins = Ok logins' /\
         (ex <> [] -> Z.of_nat (length ex) < 201 - page -> last_cursor ex = None)).
Proof.
  induction fuel as [|fuel IH]; intros next_url page logins w tr res w' tr' Hpage Hfuel Hrun;
    [lia|].
  simpl in Hrun. destruct (url_truthy next_url) eqn:Hurl.
  2:{ inversion Hrun; subst. exists []. rewrite app_nil_r. split; [reflexivity|].
      split; [constructor|]. split; [simpl; lia|]. split; [reflexivity|].
      split; [discriminate|]. intros logins' [= <-]. split; [reflexivity | congruence]. }
  set (rq := mk_request GET (default EmptyString next_url) headers None) in *.
  assert (Hone : forall r (res0 : result (gset hashable)),
            (forall l, res0 <> Ok l) ->
            exists ex, tr ++ [(rq, r)] = tr ++ ex /\
              Forall (fun x => fst x = mk_request GET (rq_url (fst x)) headers None) ex /\
              Z.of_nat (length ex) <= 201 - page /\
              (true = false -> ex = []) /\
              (true = true -> ex <> [] /\ chained (default EmptyString next_url) ex) /\
              (forall logins', res0 = Ok logins' ->
                 accumulate ex logins = Ok logins' /\
                 (ex <> [] -> Z.of_nat (length ex) < 201 - page -> last_cursor ex = None))).
  { intros r res0 Hres. exists [(rq, r)]. split; [reflexivity|].
    split; [repeat constructor|]. split; [simpl; lia|]. split; [discriminate|].
    split; [intros _; split; [discriminate | simpl; auto]|].
    intros l Hl. destruct (Hres l Hl). }
  unfold bind, send in Hrun. destruct (http w rq) as [[r|] w1] eqn:Hhttp.
  2:{ inversion Hrun; subst. apply Hone. discriminate. }
  destruct (status_code r =? 200) eqn:Hst; simpl in Hrun.
  2:{ inversion Hrun; subst. apply Hone. discriminate. }
  destruct (resp_json r) as [payload|] eqn:Hjson.
  2:{ inversion Hrun; subst. apply Hone. discriminate. }
  unfold lift in Hrun. destruct (page_logins payload logins) as [logins1|e] eqn:Hpl.
  2:{ inversion Hrun; subst. apply Hone. discriminate. }
  clear Hone. destruct (page + 1 >? 200) eqn:Hcap.
  - inversion Hrun; subst. apply Z.gtb_lt in Hcap.
    exists [(rq, Some r)]. split; [reflexivity|]. split; [repeat constructor|].
    split; [simpl; lia|]. split; [discriminate|].
    split; [intros _; split; [discriminate | simpl; auto]|].
    intros logins' [= <-]. split; [simpl; rewrite Hjson, Hpl; reflexivity|].
    simpl. lia.
  - rewrite Z.gtb_ltb in Hcap. apply Z.ltb_ge in Hcap.
    apply IH in Hrun as (ex & -> & Hget & Hlen & Hfalsy & Htruthy & Hok); [|lia|lia].
    exists ((rq, Some r) :: ex). rewrite <- app_assoc. split; [reflexivity|].
    split; [constructor; [reflexivity | exact Hget]|].
    split; [simpl length; lia|]. split; [discriminate|].
    split.
    + intros _. split; [discriminate|]. simpl. split; [reflexivity|].
      destruct ex as [|x ex]; [exact I|].
      destruct (url_truthy (parse_next_link (link_header r))) eqn:Hnext;
        [|specialize (Hfalsy eq_refl); discriminate].
      destruct (Htruthy eq_refl) as [_ Hchain].
      destruct (parse_next_link (link_header r)) as [next|] eqn:Hp; [|discriminate].
      exists r, next. repeat split; assumption.
    + intros logins' ->. destruct (Hok logins' eq_refl) as [Hacc Hlast].
      split; [simpl; rewrite Hjson, Hpl; exact Hacc|].
      intros _ Hshort. destruct ex as [|x ex].
      * unfold last_cursor. simpl. apply cursor_falsy_is_none.
        destruct (url_truthy (parse_next_link (link_header r))) eqn:Hnext; [|reflexivity].
        destruct (Htruthy eq_refl) as [Hne _]. congruence.
      * change (last_cursor ((rq, Some r) :: x :: ex)) with (last_cursor (x :: ex)).
        apply Hlast; [discriminate | simpl length in *; lia].
Qed.

(** The cost-center read is one call, whatever comes back. *)
Lemma fetch_cost_center_call base enterprise cost_center_id token w tr res w' tr' :
  fetch_cost_center_members World http base enterprise cost_center_id token (w, tr)
    = (res, (w', tr')) ->
  exists r,
    tr' = tr ++ [(mk_request GET (cost_center_url base enterprise cost_center_id)
                    (github_headers token) None, r)].
Proof.
  unfold fetch_cost_center_members, bind, send. destruct (http w _) as [[r|] w1].
  - destruct (negb (status_code r =? 200)); [intros [= <- <- <-]; eauto|].
    destruct (resp_json r); unfold lift, raise; intros [= <- <- <-]; eauto.
  - intros [= <- <- <-]. eauto.
Qed.

End Listing.

(** The calls of the team fetch on any transport. *)
Lemma team_fetch_calls {World}
    (http : World -> request -> option response * World)
    base enterprise team_slug token w res w' ex :
  fetch_enterprise_team_members World http base enterprise team_slug token (w, [])
    = (res, (w', ex)) ->
  (1 <= length ex <= 200)%nat /\
  Forall (fun x => fst x = mk_request GET (rq_url (fst x)) (github_headers token) None) ex /\
  chained (team_url base enterprise team_slug) ex.
Proof.
  intros Hrun. unfold fetch_enterprise_team_members in Hrun.
  apply team_loop_trace in Hrun as (ex' & Heq & Hget & Hlen & _ & Htruthy & _); [|lia|simpl; lia].
  simpl in Heq. subst ex'.
  destruct (Htruthy (team_url_truthy _ _ _)) as [Hne Hchain].
  split; [|split; assumption].
  destruct ex; [congruence|]. simpl length in *. lia.
Qed.

(** X3: on any transport and whatever the outcome, the team fetch makes
    between 1 and 200 calls; each is a GET without body carrying the headers
    of [github_headers]; the first goes to the memberships address and each
    later one to the cursor found in the response before it. *)
Theorem team_fetch_follows_cursors {World}
    (http : World -> request -> option response * World)
    base enterprise team_slug token w res w' ex :
  fetch_enterprise_team_members World http base enterprise team_slug token (w, [])
    = (res, (w', ex)) ->
  (1 <= length ex <= 200)%nat /\
  Forall (fun x => fst x = mk_request GET (rq_url (fst x)) (github_headers token) None) ex /\
  chained (team_url base enterprise team_slug) ex.
Proof. apply team_fetch_calls. Qed.

Lemma team_fetch_follows_cursors_witness :
  let run := fetch_enterprise_team_members (list (option response)) scripted
               api acme platform secret (three_pages, []) in
  (1 <= length (snd (snd run)) <= 200)%nat /\
  Forall (fun x => fst x = mk_request GET (rq_url (fst x)) (github_headers secret) None)
    (snd (snd run)) /\
  chained (team_url api acme platform) (snd (snd run)).
Proof.
  intros run.
  apply (team_fetch_follows_cursors scripted api acme platform secret three_pages
           (fst run) (fst (snd run)) (snd (snd run))).
  vm_compute. reflexivity.
Defined.

(** X4: a team fetch that returns has accumulated exactly the pages it
    read, and when it read fewer than 200 pages the last one carried no
    cursor. *)
Theorem team_fetch_returns_pages_read {World}
    (http : World -> request -> option response * World)
    base enterprise team_slug token w logins w' ex :
  fetch_enterprise_team_members World http base enterprise team_slug token (w, [])
    = (Ok logins, (w', ex)) ->
  accumulate ex ∅ = Ok logins /\
  ((length ex < 200)%nat -> last_cursor ex = None).
Proof.
  intros Hrun. pose proof Hrun as Hrun'. unfold fetch_enterprise_team_members in Hrun.
  apply team_loop_trace in Hrun as (ex' & Heq & _ & _ & _ & _ & Hok); [|lia|simpl; lia].
  simpl in Heq. subst ex'. destruct (Hok logins eq_refl) as [Hacc Hlast].
  split; [exact Hacc|]. intros Hshort. apply Hlast; [|lia].
  destruct (team_fetch_calls http _ _ _ _ _ _ _ _ Hrun') as [Hlen _].
  intros ->. simpl in Hlen. lia.
Qed.

Lemma team_fetch_returns_pages_read_witness :
  let run := fetch_enterprise_team_members (list (option response)) scripted
               api acme platform secret (three_pages, []) in
  accumulate (snd (snd run)) ∅
  = Ok {[HStr "ann"; HStr "ben"; HStr "cat"; HStr "dan"; HStr "eve"; HStr "fay"]} /\
  ((length (snd (snd run)) < 200)%nat -> last_cursor (snd (snd run)) = None).
Proof.
  intros run.
  apply (team_fetch_returns_pages_read scripted api acme platform secret three_pages
           {[HStr "ann"; HStr "ben"; HStr "cat"; HStr "dan"; HStr "eve"; HStr "fay"]}
           (fst (snd run)) (snd (snd run))).
  vm_compute. reflexivity.
Defined.

(** ** Further properties of the orchestrator *)

(** X5: on any transport and whatever the statuses or exceptions, the
    calls made after the two reads are DELETEs for members of the cost
    center that are not in the team, followed by POSTs for members of the
    team that are not in the cost center. *)
Theorem mutations_stay_within_plan {World}
    (http : World -> request -> option response * World)
    base enterprise team_slug cost_center_id token
    w tr team w1 tr1 cost_center w2 tr2 res w3 tr3 :
  fetch_enterprise_team_members World http base enterprise team_slug token (w, tr)
    = (Ok team, (w1, tr1)) ->
  fetch_cost_center_members World http base enterprise cost_center_id token (w1, tr1)
    = (Ok cost_center, (w2, tr2)) ->
  sync_cost_center_with_team World http base enterprise team_slug cost_center_id token (w, tr)
    = (res, (w3, tr3)) ->
  exists ex_rem ex_add,
    tr3 = tr2 ++ ex_rem ++ ex_add /\
    Forall (fun x => exists u, u ∈ cost_center /\ (u ∉ team) /\
              fst x = delete_request base enterprise cost_center_id token u) ex_rem /\
    Forall (fun x => exists u, u ∈ team /\ (u ∉ cost_center) /\
              fst x = post_request base enterprise cost_center_id token u) ex_add.
Proof.
  intros Hteam Hcc Hrun.
  rewrite (sync_after_fetch http _ _ _ _ _ _ _ _ _ _ Hteam Hcc) in Hrun.
  apply reconcile_outcome in Hrun as (ex_rem & ex_add & -> & Hrem & Hadd & _).
  exists ex_rem, ex_add. split; [reflexivity|]. split.
  - eapply Forall_impl; [exact Hrem|]. intros x (u & Hu & Hx). exists u.
    unfold to_remove_of in Hu. apply elem_of_difference in Hu as [? ?]. auto.
  - eapply Forall_impl; [exact Hadd|]. intros x (u & Hu & Hx). exists u.
    unfold to_add_of in Hu. apply elem_of_difference in Hu as [? ?]. auto.
Qed.

Lemma mutations_stay_within_plan_witness :
  let run := sync_cost_center_with_team directory busy_http api acme platform cc42 secret
               (busy_directory, []) in
  exists ex_rem ex_add,
    snd (snd run) = snd busy_reads2 ++ ex_rem ++ ex_add /\
    Forall (fun x => exists u, u ∈ busy_cost_center /\ (u ∉ busy_team) /\
              fst x = delete_request api acme cc42 secret u) ex_rem /\
    Forall (fun x => exists u, u ∈ busy_team /\ (u ∉ busy_cost_center) /\
              fst x = post_request api acme cc42 secret u) ex_add.
Proof.
  intros run.
  apply (mutations_stay_within_plan busy_http api acme platform cc42 secret
           busy_directory [] busy_team (fst busy_reads1) (snd busy_reads1)
           busy_cost_center (fst busy_reads2) (snd busy_reads2)
           (fst run) (fst (snd run))).
  - vm_compute. reflexivity.
  - vm_compute. reflexivity.
  - vm_compute. reflexivity.
Defined.

Lemma forallb_false_witness {A} (f : A -> bool) l :
  forallb f l = false -> exists x, In x l /\ f x = false.
Proof.
  induction l as [|a l IH]; simpl; [discriminate|].
  destruct (f a) eqn:Hfa; simpl.
  - intros H. destruct (IH H) as (x & Hin & Hx). exists x. auto.
  - intros _. exists a. auto.
Qed.

Lemma py_sorted_raises_mixed (s : gset hashable) e : py_sorted s = Raise e -> mixed s.
Proof.
  unfold py_sorted.
  destruct (forallb is_str (elements s)) eqn:H1; [discriminate|].
  destruct (forallb (fun h => negb (is_str h)) (elements s)) eqn:H2; [discriminate|].
  intros _.
  apply forallb_false_witness in H1 as ([a|n] & Hn & Hx); [discriminate|].
  apply forallb_false_witness in H2 as ([a|m] & Ha & Hy); [|discriminate].
  exists a, n. split; apply elem_of_elements, list_elem_of_In; assumption.
Qed.

(** X8: on any transport, a loop of removals or of additions over a list
    of usernames sends the requests of a prefix of the list, in order; it
    either attempts the whole list and returns the number of success
    statuses, or raises the transport's exception at the first call that got
    no response, leaving the usernames after it unattempted. *)
Theorem loop_stops_at_first_unanswered_call {World}
    (http : World -> request -> option response * World)
    base enterprise cost_center_id token usernames w tr :
  (forall res w' tr',
     count_successes World
       (fun u => remove_user_from_cost_center World http base enterprise cost_center_id u token)
       usernames 0%nat (w, tr) = (res, (w', tr')) ->
     exists ex,
       tr' = tr ++ ex /\
       map fst ex = map (delete_request base enterprise cost_center_id token)
                      (take (length ex) usernames) /\
       ((res = Ok (count_true remove_success (statuses ex)) /\
         length ex = length usernames /\ Forall (fun x => snd x <> None) ex) \/
        (res = Raise RequestException /\
         exists ex0 rq, ex = ex0 ++ [(rq, None)] /\ Forall (fun x => snd x <> None) ex0))) /\
  (forall res w' tr',
     count_successes World
       (fun u => add_user_to_cost_center World http base enterprise cost_center_id u token)
       usernames 0%nat (w, tr) = (res, (w', tr')) ->
     exists ex,
       tr' = tr ++ ex /\
       map fst ex = map (post_request base enterprise cost_center_id token)
                      (take (length ex) usernames) /\
       ((res = Ok (count_true add_success (statuses ex)) /\
         length ex = length usernames /\ Forall (fun x => snd x <> None) ex) \/
        (res = Raise RequestException /\
         exists ex0 rq, ex = ex0 ++ [(rq, None)] /\ Forall (fun x => snd x <> None) ex0))).
Proof.
  split; intros res w' tr' Hrun.
  - apply (count_successes_outcome http _ _ _ (remove_user_reports http _ _ _ _)) in Hrun.
    exact Hrun.
  - apply (count_successes_outcome http _ _ _ (add_user_reports http _ _ _ _)) in Hrun.
    exact Hrun.
Qed.

Lemma loop_stops_at_first_unanswered_call_witness :
  let usernames := [HStr "x"; HStr "y"; HStr "z"] in
  let run := count_successes (list (option response))
               (fun u => remove_user_from_cost_center (list (option response)) scripted
                           api acme cc42 u secret)
               usernames 0%nat ([Some (mk_response 204 None None); None], []) in
  (fst run = Raise RequestException /\ length (snd (snd run)) = 2%nat) /\
  exists ex,
    snd (snd run) = [] ++ ex /\
    map fst ex = map (delete_request api acme cc42 secret) (take (length ex) usernames) /\
    ((fst run = Ok (count_true remove_success (statuses ex)) /\
      length ex = length usernames /\ Forall (fun x => snd x <> None) ex) \/
     (fst run = Raise RequestException /\
      exists ex0 rq, ex = ex0 ++ [(rq, None)] /\ Forall (fun x => snd x <> None) ex0)).
Proof.
  intros usernames run. split; [vm_compute; split; reflexivity|].
  apply (proj1 (loop_stops_at_first_unanswered_call scripted api acme cc42 secret usernames
                  [Some (mk_response 204 None None); None] [])
           (fst run) (fst (snd run)) (snd (snd run))).
  vm_compute. reflexivity.
Defined.

(** X9: on any transport and whatever the outcome, every call of a run
    carries the headers of [github_headers]; a read has no body, and a
    mutation goes to the resource address of the configured cost center with
    a body that names one user. *)
Theorem every_call_is_authenticated {World}
    (http : World -> request -> option response * World)
    base enterprise team_slug cost_center_id token w res w' ex :
  sync_cost_center_with_team World http base enterprise team_slug cost_center_id token (w, [])
    = (res, (w', ex)) ->
  Forall (fun x =>
            rq_headers (fst x) = github_headers token /\
            match rq_verb (fst x) with
            | GET => rq_json (fst x) = None
            | POST | DELETE =>
                rq_url (fst x) = resource_url base enterprise cost_center_id /\
                exists u, rq_json (fst x) = Some (users_payload u)
            end) ex.
Proof.
  intros Hrun. unfold sync_cost_center_with_team in Hrun. unfold bind at 1 in Hrun.
  destruct (fetch_enterprise_team_members _ _ _ _ _ _ (w, [])) as [r1 [w1 tr1]] eqn:H1.
  destruct (team_fetch_calls http _ _ _ _ _ _ _ _ H1) as (_ & Hget & _).
  assert (Hreads : Forall (fun x =>
            rq_headers (fst x) = github_headers token /\
            match rq_verb (fst x) with
            | GET => rq_json (fst x) = None
            | POST | DELETE =>
                rq_url (fst x) = resource_url base enterprise cost_center_id /\
                exists u, rq_json (fst x) = Some (users_payload u)
            end) tr1).
  { eapply Forall_impl; [exact Hget|]. intros x ->. simpl. auto. }
  destruct r1 as [team|e1]; [|inversion Hrun; subst; exact Hreads].
  unfold bind at 1 in Hrun.
  destruct (fetch_cost_center_members _ _ _ _ _ _ (w1, tr1)) as [r2 [w2 tr2]] eqn:H2.
  apply fetch_cost_center_call in H2 as [r ->].
  assert (Hreads2 : Forall (fun x =>
            rq_headers (fst x) = github_headers token /\
            match rq_verb (fst x) with
            | GET => rq_json (fst x) = None
            | POST | DELETE =>
                rq_url (fst x) = resource_url base enterprise cost_center_id /\
                exists u, rq_json (fst x) = Some (users_payload u)
            end) (tr1 ++ [(mk_request GET (cost_center_url base enterprise cost_center_id)
                             (github_headers token) None, r)])).
  { apply Forall_app. split; [exact Hreads|]. constructor; [simpl; auto | constructor]. }
  destruct r2 as [cost_center|e2]; [|inversion Hrun; subst; exact Hreads2].
  apply reconcile_outcome in Hrun as (ex_rem & ex_add & -> & Hrem & Hadd & _).
  apply Forall_app. split; [exact Hreads2|]. apply Forall_app. split.
  - eapply Forall_impl; [exact Hrem|]. intros x (u & _ & ->). simpl. eauto.
  - eapply Forall_impl; [exact Hadd|]. intros x (u & _ & ->). simpl. eauto.
Qed.

Lemma every_call_is_authenticated_witness :
  Forall (fun x =>
            rq_headers (fst x) = github_headers secret /\
            match rq_verb (fst x) with
            | GET => rq_json (fst x) = None
            | POST | DELETE =>
                rq_url (fst x) = resource_url api acme cc42 /\
                exists u, rq_json (fst x) = Some (users_payload u)
            end) (snd (snd first_run)).
Proof.
  apply (every_call_is_authenticated plain_http api acme platform cc42 secret
           first_directory (fst first_run) (fst (snd first_run))).
  vm_compute. reflexivity.
Defined.

(** ** Further properties of the extraction *)

Lemma dict_lookup_In d k v : dict_lookup d k = Some v -> In (k, v) d.
Proof.
  induction d as [|[k' v'] d IH]; simpl; [discriminate|].
  destruct (String.eqb_spec k' k) as [->|_]; [intros [= ->]; auto | auto].
Qed.

Lemma first_listed_found keys d v :
  first_listed keys d = Some v ->
  exists k l, v = JList l /\ In k keys /\ dict_lookup d k = Some (JList l).
Proof.
  induction keys as [|k keys IH]; simpl; [discriminate|].
  destruct (dict_lookup d k) as [[| | | |l|]|] eqn:Hk;
    try (intros H; destruct (IH H) as (k' & l' & ? & ? & ?); exists k', l'; auto).
  intros [= <-]. exists k, l. auto.
Qed.

Lemma first_records_found vals v :
  first_records vals = Some v -> In v vals /\ looks_like_records v = true.
Proof.
  induction vals as [|a vals IH]; simpl; [discriminate|].
  destruct (looks_like_records a) eqn:Ha.
  - intros [= <-]. auto.
  - intros H. destruct (IH H). auto.
Qed.

(** X10: the records returned by [extract_memberships] are never made up:
    the result is empty, or the payload's own list, or a list stored in the
    payload mapping, under one of the four priority keys or, failing that,
    one that is empty or starts with a mapping. *)
Theorem extracted_records_come_from_payload payload :
  let records := extract_memberships payload in
  records = [] \/
  payload = JList records \/
  exists d k, payload = JDict d /\ In (k, JList records) d /\
    (In k priority_keys \/ looks_like_records (JList records) = true).
Proof.
  unfold extract_memberships. destruct payload as [| | | |l|d]; cbv beta iota zeta; auto.
  destruct (first_listed priority_keys d) as [v|] eqn:Hfirst.
  - apply first_listed_found in Hfirst as (k & l & -> & Hk & Hl).
    right. right. exists d, k. split; [reflexivity|].
    split; [apply dict_lookup_In, Hl | left; exact Hk].
  - destruct (first_records (map snd d)) as [v|] eqn:Hrec; [|auto].
    apply first_records_found in Hrec as [Hin Hlooks].
    destruct v as [| | | |l|]; auto.
    apply in_map_iff in Hin as ([k v] & Hv & Hin). simpl in Hv. subst v.
    right. right. exists d, k. auto.
Qed.

Lemma add_login_not_blank login logins logins' :
  add_login login logins = Ok logins' ->
  forall h, h ∈ logins' -> h ∈ logins \/ blank h = false.
Proof.
  destruct login as [|[]|n|s|[]|[]]; simpl; try discriminate;
    try (intros [= <-] h Hh; auto; fail).
  - intros [= <-] h Hh. apply elem_of_union in Hh as [Hh|Hh]; [|auto].
    apply elem_of_singleton in Hh as ->. auto.
  - destruct (n =? 0) eqn:Hn; intros [= <-] h Hh; [auto|].
    apply elem_of_union in Hh as [Hh|Hh]; [|auto].
    apply elem_of_singleton in Hh as ->. auto.
  - destruct (PyStr.nonempty s) eqn:Hs; intros [= <-] h Hh; [|auto].
    apply elem_of_union in Hh as [Hh|Hh]; [|auto].
    apply elem_of_singleton in Hh as ->. simpl. rewrite Hs. auto.
Qed.

Lemma collect_logins_not_blank ms :
  forall logins logins',
    collect_logins ms logins = Ok logins' ->
    (forall h, h ∈ logins -> blank h = false) ->
    forall h, h ∈ logins' -> blank h = false.
Proof.
  induction ms as [|m ms IH]; intros logins logins'; simpl; [intros [= <-]; auto|].
  destruct m; try apply IH.
  destruct (add_login _ logins) as [logins1|e] eqn:Hadd; simpl; [|discriminate].
  intros Hrun Hinv. apply (IH _ _ Hrun). intros h Hh.
  destruct (add_login_not_blank _ _ _ Hadd h Hh); auto.
Qed.

Lemma collect_users_not_blank users :
  forall logins logins',
    collect_users users logins = Ok logins' ->
    (forall h, h ∈ logins -> blank h = false) ->
    forall h, h ∈ logins' -> blank h = false.
Proof.
  induction users as [|u users IH]; intros logins logins'; simpl; [intros [= <-]; auto|].
  destruct (add_login _ logins) as [logins1|e] eqn:Hadd; simpl; [|discriminate].
  intros Hrun Hinv. apply (IH _ _ Hrun). intros h Hh.
  destruct (add_login_not_blank _ _ _ Hadd h Hh); auto.
Qed.

Lemma cost_center_logins_not_blank data logins :
  cost_center_logins data = Ok logins -> forall h, h ∈ logins -> blank h = false.
Proof.
  unfold cost_center_logins.
  destruct (py_in "resources" data) as [[]|]; simpl; [| |discriminate].
  - destruct (py_get data "resources" _) as [resources|]; simpl; [|discriminate].
    destruct (py_get resources "users" _) as [users|]; simpl; [|discriminate].
    destruct (py_iter users) as [items|]; simpl; [|discriminate].
    intros H. apply (collect_users_not_blank _ _ _ H). set_solver.
  - destruct (py_in "users" data) as [[]|]; simpl; [| |discriminate].
    + destruct (py_get data "users" _) as [users|]; simpl; [|discriminate].
      destruct (py_iter users) as [items|]; simpl; [|discriminate].
      intros H. apply (collect_users_not_blank _ _ _ H). set_solver.
    + intros [= <-]. set_solver.
Qed.

Lemma team_loop_not_blank {World} (http : World -> request -> option response * World)
    headers fuel :
  forall next_url page logins st logins' st',
    team_loop World http fuel headers next_url page logins st = (Ok logins', st') ->
    (forall h, h ∈ logins -> blank h = false) ->
    forall h, h ∈ logins' -> blank h = false.
Proof.
  induction fuel as [|fuel IH]; intros next_url page logins [w tr] logins' st' Hrun Hinv;
    simpl in Hrun; destruct (url_truthy next_url); try discriminate;
    try (inversion Hrun; subst; exact Hinv).
  unfold bind, send in Hrun. destruct (http w _) as [[r|] w1]; [|discriminate].
  destruct (status_code r =? 200); simpl in Hrun; [|discriminate].
  destruct (resp_json r) as [payload|]; [|discriminate].
  unfold lift in Hrun. destruct (page_logins payload logins) as [logins1|e] eqn:Hpl;
    [|discriminate].
  pose proof (collect_logins_not_blank _ _ _ Hpl Hinv) as Hinv1.
  destruct (page + 1 >? 200); [inversion Hrun; subst; exact Hinv1|].
  exact (IH _ _ _ _ _ _ Hrun Hinv1).
Qed.

(** X11: neither fetcher ever returns the empty string or zero as an
    identifier: falsy logins are dropped before they reach the set. *)
Theorem fetched_sets_hold_no_blank_identifier {World}
    (http : World -> request -> option response * World) :
  (forall base enterprise team_slug token st logins st',
     fetch_enterprise_team_members World http base enterprise team_slug token st
       = (Ok logins, st') ->
     forall h, h ∈ logins -> blank h = false) /\
  (forall base enterprise cost_center_id token st logins st',
     fetch_cost_center_members World http base enterprise cost_center_id token st
       = (Ok logins, st') ->
     forall h, h ∈ logins -> blank h = false).
Proof.
  split.
  - intros base enterprise team_slug token st logins st' Hrun.
    apply (team_loop_not_blank http _ _ _ _ _ _ _ _ Hrun). set_solver.
  - intros base enterprise cost_center_id token [w tr] logins st'.
    unfold fetch_cost_center_members, bind, send.
    destruct (http w _) as [[r|] w1]; [|discriminate].
    destruct (negb (status_code r =? 200)); [discriminate|].
    destruct (resp_json r) as [data|]; [|discriminate].
    unfold lift. intros [= H _]. exact (cost_center_logins_not_blank data logins H).
Qed.

Lemma fetched_sets_hold_no_blank_identifier_witness :
  HStr "alice" ∈ busy_team /\ blank (HStr "alice") = false.
Proof.
  assert (Hin : HStr "alice" ∈ busy_team) by (unfold busy_team; set_solver).
  split; [exact Hin|].
  apply (proj1 (fetched_sets_hold_no_blank_identifier busy_http)
           api acme platform secret (busy_directory, []) busy_team busy_reads1);
    [vm_compute; reflexivity | exact Hin].
Defined.

Lemma add_login_unhashable login logins :
  unhashable login = true -> add_login login logins = Raise TypeError.
Proof. destruct login as [| | | |[]|[]]; simpl; congruence. Qed.

(** X12: one record whose login is a non-empty list or mapping makes the
    whole page, and so the fetch, raise [TypeError]; the same holds for one
    such entry of a cost-center [users] collection. *)
Theorem unhashable_login_aborts_the_fetch :
  (forall payload m logins,
     In (JDict m) (extract_memberships payload) ->
     unhashable (record_login m) = true ->
     page_logins payload logins = Raise TypeError) /\
  (forall users user logins,
     In user users ->
     unhashable (user_login user) = true ->
     collect_users users logins = Raise TypeError).
Proof.
  split.
  - intros payload m logins Hin Hbad. unfold page_logins.
    revert logins. induction (extract_memberships payload) as [|r rs IH]; [destruct Hin|].
    intros logins. destruct Hin as [->|Hin].
    + simpl. rewrite (add_login_unhashable _ _ Hbad). reflexivity.
    + destruct r; simpl; try apply (IH Hin).
      destruct (add_login _ logins) as [logins1|e] eqn:Hadd; simpl; [apply (IH Hin)|].
      apply add_login_raises in Hadd as ->. reflexivity.
  - intros users user logins Hin Hbad. revert logins.
    induction users as [|u us IH]; [destruct Hin|]. intros logins.
    destruct Hin as [->|Hin]; simpl.
    + rewrite (add_login_unhashable _ _ Hbad). reflexivity.
    + destruct (add_login _ logins) as [logins1|e] eqn:Hadd; simpl; [apply (IH Hin)|].
      apply add_login_raises in Hadd as ->. reflexivity.
Qed.

Lemma unhashable_login_aborts_the_fetch_witness :
  page_logins odd_page ∅ = Raise TypeError.
Proof.
  apply (proj1 unhashable_login_aborts_the_fetch odd_page
           [("login"%string, JList [JStr "ben"])] ∅).
  - right. left. reflexivity.
  - reflexivity.
Defined.

Lemma user_login_names user s : names_entry user s -> user_login user = JStr s.
Proof.
  intros [s' Hs|u s' Hl Hs|u s' Ha Hu Hs]; simpl; [reflexivity| |].
  - unfold dict_get. rewrite Hl. unfold py_or. simpl.
    rewrite (nonempty_true _ Hs). reflexivity.
  - unfold dict_get. rewrite Hu. unfold py_or, absent_or_falsy in *.
    destruct (dict_lookup u "login") as [v|]; [rewrite Ha|]; reflexivity.
Qed.

Lemma names_entry_nonempty user s : names_entry user s -> PyStr.nonempty s = true.
Proof. intros [s' Hs|u s' _ Hs|u s' _ _ Hs]; apply nonempty_true, Hs. Qed.

Lemma collect_users_names users names :
  Forall2 names_entry users names ->
  forall logins,
    collect_users users logins = Ok (list_to_set (map HStr names) ∪ logins).
Proof.
  induction 1 as [|user s users names Hn _ IH]; intros logins; simpl.
  - f_equal. set_solver.
  - rewrite (user_login_names _ _ Hn). simpl. rewrite (names_entry_nonempty _ _ Hn).
    simpl. rewrite IH. f_equal. set_solver.
Qed.

(** X13: a cost-center document whose users are listed under
    [resources.users], or under a top-level [users] when it has no
    [resources] key, yields exactly the logins its entries name, an entry
    being a bare string, a mapping with a [login], or a mapping with a
    [username] and no usable [login]. *)
Theorem cost_center_document_is_decoded d users names :
  (exists resources,
      dict_lookup d "resources" = Some (JDict resources) /\
      dict_lookup resources "users" = Some (JList users)) \/
  (dict_lookup d "resources" = None /\ dict_lookup d "users" = Some (JList users)) ->
  Forall2 names_entry users names ->
  cost_center_logins (JDict d) = Ok (list_to_set (map HStr names)).
Proof.
  intros Hshape Hnames. unfold cost_center_logins. simpl.
  destruct Hshape as [(resources & Hr & Hu)|[Hr Hu]]; rewrite Hr; simpl.
  - unfold dict_get_default. rewrite Hr. simpl. unfold dict_get_default. rewrite Hu. simpl.
    rewrite (collect_users_names _ _ Hnames). f_equal. set_solver.
  - rewrite Hu. simpl. unfold dict_get_default. rewrite Hu. simpl.
    rewrite (collect_users_names _ _ Hnames). f_equal. set_solver.
Qed.

Lemma cost_center_document_is_decoded_witness :
  cost_center_logins (JDict [("resources"%string, JDict [("users"%string, JList varied_users)])])
  = Ok (list_to_set (map HStr ["ann"; "ben"; "cat"]%string)).
Proof.
  apply (cost_center_document_is_decoded _ varied_users).
  - left. eexists. split; reflexivity.
  - constructor; [apply names_bare; discriminate|].
    constructor; [apply names_login; [reflexivity | discriminate]|].
    constructor; [apply names_username; [reflexivity | reflexivity | discriminate]|].
    constructor.
Defined.

(** ** Properties of the entry point *)

Lemma cost_center_logins_raises data e :
  cost_center_logins data = Raise e -> e = TypeError \/ e = AttributeError.
Proof.
  assert (Husers : forall users logins e', collect_users users logins = Raise e' -> e' = TypeError).
  { induction users as [|u us IH]; intros logins e'; simpl; [discriminate|].
    destruct (add_login _ logins) as [l1|e1] eqn:Hadd; simpl; [apply IH|].
    intros [= <-]. eapply add_login_raises, Hadd. }
  assert (Hiter : forall v e', py_iter v = Raise e' -> e' = TypeError)
    by (intros [] e'; simpl; congruence).
  assert (Hget : forall v k dflt e', py_get v k dflt = Raise e' -> e' = AttributeError)
    by (intros [] k dflt e'; simpl; congruence).
  assert (Hin : forall k v e', py_in k v = Raise e' -> e' = TypeError)
    by (intros k [] e'; simpl; congruence).
  unfold cost_center_logins.
  destruct (py_in "resources" data) as [[]|e0] eqn:H0; simpl;
    [| |intros [= <-]; left; eapply Hin, H0].
  - destruct (py_get data "resources" _) as [resources|e1] eqn:H1; simpl;
      [|intros [= <-]; right; eapply Hget, H1].
    destruct (py_get resources "users" _) as [users|e2] eqn:H2; simpl;
      [|intros [= <-]; right; eapply Hget, H2].
    destruct (py_iter users) as [items|e3] eqn:H3; simpl;
      [|intros [= <-]; left; eapply Hiter, H3].
    intros H. left. eapply Husers, H.
  - destruct (py_in "users" data) as [[]|e1] eqn:H1; simpl;
      [| discriminate |intros [= <-]; left; eapply Hin, H1].
    destruct (py_get data "users" _) as [users|e2] eqn:H2; simpl;
      [|intros [= <-]; right; eapply Hget, H2].
    destruct (py_iter users) as [items|e3] eqn:H3; simpl;
      [|intros [= <-]; left; eapply Hiter, H3].
    intros H. left. eapply Husers, H.
Qed.

Section EntryPoint.

Context {World : Type} (http : World -> request -> option response * World).

Lemma fetch_cost_center_raises base enterprise cost_center_id token st e st' :
  fetch_cost_center_members World http base enterprise cost_center_id token st
    = (Raise e, st') -> e <> OutOfFuel.
Proof.
  destruct st as [w tr]. unfold fetch_cost_center_members, bind, send.
  destruct (http w _) as [[r|] w1]; [|intros [= <- _]; discriminate].
  destruct (negb (status_code r =? 200)); [intros [= <- _]; discriminate|].
  destruct (resp_json r) as [data|]; [|intros [= <- _]; discriminate].
  unfold lift. intros [= H _]. apply cost_center_logins_raises in H as [-> | ->]; discriminate.
Qed.

(** The exceptions of a run, and the reads its trace starts with. *)
Lemma sync_outcome base enterprise team_slug cost_center_id token w tr res w' tr' :
  sync_cost_center_with_team World http base enterprise team_slug cost_center_id token (w, tr)
    = (res, (w', tr')) ->
  res <> Raise OutOfFuel /\
  exists r1 w1 tr1 rest,
    fetch_enterprise_team_members World http base enterprise team_slug token (w, tr)
      = (r1, (w1, tr1)) /\
    tr' = tr1 ++ rest.
Proof.
  intros Hrun. unfold sync_cost_center_with_team in Hrun. unfold bind at 1 in Hrun.
  destruct (fetch_enterprise_team_members _ _ _ _ _ _ (w, tr)) as [r1 [w1 tr1]] eqn:H1.
  pose proof (fetch_team_never_out_of_fuel http base enterprise team_slug token (w, tr)) as Hfuel.
  rewrite H1 in Hfuel. simpl in Hfuel.
  destruct r1 as [team|e1].
  2:{ inversion Hrun; subst. split; [congruence|].
      exists (Raise e1), w', tr', []. rewrite app_nil_r. auto. }
  unfold bind at 1 in Hrun.
  destruct (fetch_cost_center_members _ _ _ _ _ _ (w1, tr1)) as [r2 [w2 tr2]] eqn:H2.
  pose proof H2 as H2'. apply fetch_cost_center_call in H2' as [r ->].
  destruct r2 as [cost_center|e2].
  2:{ inversion Hrun; subst. apply fetch_cost_center_raises in H2.
      split; [congruence|]. exists (Ok team), w1, tr1. eauto. }
  apply reconcile_outcome in Hrun as (ex_rem & ex_add & -> & _ & _ & _ & Herr).
  split.
  - intros ->. destruct (Herr _ eq_refl) as [[? _]|[? _]]; discriminate.
  - exists (Ok team), w1, tr1. eexists. split; [reflexivity|].
    rewrite <- app_assoc. reflexivity.
Qed.

End EntryPoint.

Section TrailingSlashes.

#[local] Arguments String.append !_ _ / : simpl nomatch.

Lemma rstrip_char_no_trailing c s t :
  rstrip_char c s <> String.append t (String c EmptyString).
Proof.
  revert t. induction s as [|a s IH]; intros t; simpl.
  - destruct t; discriminate.
  - destruct (rstrip_char c s) as [|b r] eqn:Hr.
    + destruct (Ascii.eqb_spec a c) as [->|Hne]; [destruct t; discriminate|].
      destruct t as [|x [|y t]]; simpl; congruence.
    + destruct t as [|x t]; simpl; [destruct r; discriminate|].
      intros [= -> H]. apply (IH t H).
Qed.

Lemma rstrip_char_suffix c s :
  exists t, s = String.append (rstrip_char c s) t /\ count_char c t = String.length t.
Proof.
  induction s as [|a s (t & IH & Ht)]; simpl.
  - exists EmptyString. split; reflexivity.
  - destruct (rstrip_char c s) as [|b r] eqn:Hr.
    + destruct (Ascii.eqb a c) eqn:Hac.
      * exists (String a t). simpl in IH. subst t. split; [reflexivity|].
        simpl. rewrite Hac, Ht. reflexivity.
      * exists t. simpl in IH. subst t. split; [reflexivity | exact Ht].
    + exists t. split; [|exact Ht]. simpl. simpl in IH. rewrite IH at 1. reflexivity.
Qed.

End TrailingSlashes.

(** X14: the names reported missing are exactly the required variables
    that are unset or empty; when there is one, [main] exits with status 1
    without making any call. *)
Theorem missing_configuration_exits_before_any_call {World}
    (http : World -> request -> option response * World) env :
  (forall name,
     In name (missing_variables env) <->
     In name ["GITHUB_ENTERPRISE"; "GITHUB_TEAM_SLUG"; "GITHUB_COST_CENTER_ID";
              "GITHUB_TOKEN"]%string /\ env_unset (env name) = true) /\
  (missing_variables env <> [] -> forall st, main http env st = (Raise exit_1, st)).
Proof.
  split.
  - intros name. unfold missing_variables.
    destruct (env_unset (env "GITHUB_ENTERPRISE"%string)) eqn:H1;
      destruct (env_unset (env "GITHUB_TEAM_SLUG"%string)) eqn:H2;
      destruct (env_unset (env "GITHUB_COST_CENTER_ID"%string)) eqn:H3;
      destruct (env_unset (env "GITHUB_TOKEN"%string)) eqn:H4;
      simpl; split;
      try (intros [Hin Hu]; repeat destruct Hin as [<-|Hin]; try contradiction;
           congruence || auto 6);
      intros Hin; repeat destruct Hin as [<-|Hin]; try contradiction; auto 10.
  - intros Hmissing st. unfold main.
    destruct (missing_variables env); [congruence | reflexivity].
Qed.

Lemma missing_configuration_exits_before_any_call_witness :
  missing_variables partial_env = ["GITHUB_TEAM_SLUG"; "GITHUB_TOKEN"]%string /\
  main plain_http partial_env (first_directory, []) = (Raise exit_1, (first_directory, [])).
Proof.
  split; [reflexivity|].
  apply (proj2 (missing_configuration_exits_before_any_call plain_http partial_env)).
  discriminate.
Defined.

(** X16: the base address used by [main] never ends with a slash: it is
    the configured address without its trailing slashes, or
    [https://api.github.com] when none is configured; with a complete
    configuration the first call of [main] goes to the memberships address
    built from it. *)
Theorem base_address_has_no_trailing_slash {World}
    (http : World -> request -> option response * World) env :
  (forall t, api_base env <> String.append t "/") /\
  (env "GITHUB_API_BASE"%string = None -> api_base env = "https://api.github.com"%string) /\
  (forall s, env "GITHUB_API_BASE"%string = Some s ->
     exists t, s = String.append (api_base env) t /\ count_char "/" t = String.length t) /\
  (forall w res w' ex,
     missing_variables env = [] ->
     main http env (w, []) = (res, (w', ex)) ->
     exists x ex',
       ex = x :: ex' /\
       rq_url (fst x)
       = team_url (api_base env) (default EmptyString (env "GITHUB_ENTERPRISE"%string))
           (default EmptyString (env "GITHUB_TEAM_SLUG"%string))).
Proof.
  split; [intros t; apply rstrip_char_no_trailing|].
  split; [intros Hnone; unfold api_base; rewrite Hnone; reflexivity|].
  split; [intros s Hs; unfold api_base; rewrite Hs; apply rstrip_char_suffix|].
  intros w res w' ex Hmissing Hmain. unfold main in Hmain. rewrite Hmissing in Hmain.
  destruct (sync_cost_center_with_team _ _ _ _ _ _ _ (w, [])) as [r [w1 tr1]] eqn:Hrun.
  assert (Hex : tr1 = ex) by (destruct r as [?|e]; [|destruct (is_exception e)]; congruence).
  subst tr1. apply sync_outcome in Hrun as (_ & r1 & w2 & tr2 & rest & Hfetch & ->).
  destruct (team_fetch_calls http _ _ _ _ _ _ _ _ Hfetch) as (Hlen & _ & Hchain).
  destruct tr2 as [|[rq r0] tr2]; [simpl in Hlen; lia|].
  exists (rq, r0), (tr2 ++ rest). split; [reflexivity|]. simpl in Hchain. apply Hchain.
Qed.

Lemma base_address_has_no_trailing_slash_witness :
  api_base full_env = "https://ghe.example/api/v3"%string /\
  exists x ex',
    snd (snd (main plain_http full_env (first_directory, []))) = x :: ex' /\
    rq_url (fst x) = team_url (api_base full_env) "acme" "platform".
Proof.
  split; [reflexivity|].
  apply (proj2 (proj2 (proj2 (base_address_has_no_trailing_slash plain_http full_env)))
           first_directory
           (fst (main plain_http full_env (first_directory, [])))
           (fst (snd (main plain_http full_env (first_directory, []))))).
  - reflexivity.
  - vm_compute. reflexivity.
Defined.

(** ** The logins of a page, record by record *)

Lemma record_login_of_names m s : record_names m s -> record_login m = JStr s.
Proof.
  intros [m' s' Hn Hs|m' s' Hn Hl Hs].
  - apply record_login_nested; [exact Hn | apply nonempty_true, Hs].
  - rewrite (record_login_fallback _ Hn). unfold dict_get. rewrite Hl. reflexivity.
Qed.

Lemma record_login_skipped m :
  absent_or_falsy (nested_login m) -> absent_or_falsy (dict_lookup m "login") ->
  truthy (record_login m) = false.
Proof.
  intros Hn Hl. rewrite (record_login_fallback _ Hn). unfold dict_get.
  unfold absent_or_falsy in Hl. destruct (dict_lookup m "login"); [exact Hl | reflexivity].
Qed.

Lemma add_login_falsy login logins : truthy login = false -> add_login login logins = Ok logins.
Proof.
  destruct login as [|[]|n|s|[]|[]]; simpl; try discriminate; try reflexivity.
  - intros H. apply negb_false_iff in H. rewrite H. reflexivity.
  - intros ->. reflexivity.
Qed.

(** A record whose login is a string names it. *)
Lemma names_of_record_login m s :
  record_login m = JStr s -> s <> EmptyString -> record_names m s.
Proof.
  intros Hrec Hs.
  destruct (nested_login m) as [v|] eqn:Hn.
  - destruct (truthy v) eqn:Hv.
    + rewrite (record_login_nested m v Hn Hv) in Hrec. subst v.
      apply by_nested_login; assumption.
    + assert (Hf : absent_or_falsy (nested_login m)) by (rewrite Hn; exact Hv).
      rewrite (record_login_fallback m Hf) in Hrec. unfold dict_get in Hrec.
      destruct (dict_lookup m "login") as [l|] eqn:Hl; [|discriminate]. subst l.
      apply by_top_level_login; assumption.
  - assert (Hf : absent_or_falsy (nested_login m)) by (rewrite Hn; exact I).
    rewrite (record_login_fallback m Hf) in Hrec. unfold dict_get in Hrec.
    destruct (dict_lookup m "login") as [l|] eqn:Hl; [|discriminate]. subst l.
    apply by_top_level_login; assumption.
Qed.

(** One turn of the loop over the items of a page. *)
Lemma collect_logins_step item out ms logins :
  record_yields item out ->
  collect_logins (item :: ms) logins
  = collect_logins ms (match out with Some s => {[HStr s]} ∪ logins | None => logins end).
Proof.
  intros [v Hv|m s Hn|m Hn Hl].
  - destruct v; try reflexivity. discriminate.
  - cbn [collect_logins]. rewrite (record_login_of_names _ _ Hn). simpl.
    assert (Hs : s <> EmptyString) by (destruct Hn; assumption).
    rewrite (nonempty_true s Hs). reflexivity.
  - cbn [collect_logins]. rewrite (add_login_falsy _ _ (record_login_skipped _ Hn Hl)).
    reflexivity.
Qed.

(** The whole loop: every item of the page contributes what it yields. *)
Lemma collect_logins_yields ms outs :
  Forall2 record_yields ms outs ->
  forall logins, collect_logins ms logins = Ok (yielded outs ∪ logins).
Proof.
  induction 1 as [|item out ms outs Hy _ IH]; intros logins.
  - simpl. f_equal. unfold yielded. simpl. set_solver.
  - rewrite (collect_logins_step _ _ _ _ Hy), IH. f_equal. unfold yielded.
    destruct out as [s|]; simpl; set_solver.
Qed.

Lemma add_login_strings login logins logins' :
  add_login login logins = Ok logins' ->
  forall s, HStr s ∈ logins' <-> HStr s ∈ logins \/ (login = JStr s /\ s <> EmptyString).
Proof.
  destruct login as [|[]|n|t|[]|[]]; simpl; try discriminate;
    try (intros [= <-] s; split; [auto | intros [?|[? _]]; [assumption | discriminate]]).
  - intros [= <-] s. rewrite elem_of_union, elem_of_singleton.
    split; [intros [?|?]; [discriminate | auto] | intros [?|[? _]]; [auto | discriminate]].
  - destruct (n =? 0); intros [= <-] s.
    + split; [auto | intros [?|[? _]]; [assumption | discriminate]].
    + rewrite elem_of_union, elem_of_singleton.
      split; [intros [?|?]; [discriminate | auto] | intros [?|[? _]]; [auto | discriminate]].
  - destruct (PyStr.nonempty t) eqn:Ht; intros [= <-] s.
    + rewrite elem_of_union, elem_of_singleton. split.
      * intros [[= ->]|?]; [|auto]. right. split; [reflexivity|].
        intros ->. discriminate.
      * intros [?|[[= ->] _]]; auto.
    + split; [auto|]. intros [?|[[= ->] Hs]]; [assumption|].
      destruct s; [congruence | discriminate].
Qed.

Lemma collect_logins_strings ms :
  forall logins logins',
    collect_logins ms logins = Ok logins' ->
    forall s, HStr s ∈ logins' <->
      HStr s ∈ logins \/ exists m, In (JDict m) ms /\ record_names m s.
Proof.
  induction ms as [|item ms IH]; intros logins logins'; simpl.
  - intros [= <-] s. split; [auto | intros [?|(m & [] & _)]; assumption].
  - assert (Hother : is_dict item = false ->
              collect_logins ms logins = Ok logins' ->
              forall s, HStr s ∈ logins' <->
                HStr s ∈ logins \/ exists m, In (JDict m) (item :: ms) /\ record_names m s).
    { intros Hd Hrun s. rewrite (IH _ _ Hrun s). split.
      - intros [?|(m & Hin & Hn)]; [auto|]. right. exists m. split; [right|]; assumption.
      - intros [?|(m & [->|Hin] & Hn)]; [auto | discriminate | eauto]. }
    destruct item as [| | | | |m0]; try (apply Hother; reflexivity). clear Hother.
    destruct (add_login (record_login m0) logins) as [logins1|e] eqn:Hadd; simpl;
      [|discriminate].
    intros Hrun s. rewrite (IH _ _ Hrun s), (add_login_strings _ _ _ Hadd s). split.
    + intros [[?|[Hrec Hs]]|(m & Hin & Hn)]; [auto | | right; exists m; auto].
      right. exists m0. split; [left; reflexivity | apply names_of_record_login; assumption].
    + intros [?|(m & [[= ->]|Hin] & Hn)]; [auto | | eauto].
      left. right. split; [apply record_login_of_names, Hn | destruct Hn; assumption].
Qed.

(** The string identifiers accumulated from a list of exchanges are the
    logins named by the records of their payloads. *)
Lemma accumulate_strings xs :
  forall logins logins',
    accumulate xs logins = Ok logins' ->
    forall s, HStr s ∈ logins' <->
      HStr s ∈ logins \/
      exists x r payload m,
        In x xs /\ snd x = Some r /\ resp_json r = Some payload /\
        In (JDict m) (extract_memberships payload) /\ record_names m s.
Proof.
  induction xs as [|[rq [r|]] xs IH]; intros logins logins'; simpl.
  - intros [= <-] s. split; [auto | intros [?|(x & ? & ? & ? & [] & _)]; assumption].
  - destruct (resp_json r) as [payload|] eqn:Hjson.
    + destruct (page_logins payload logins) as [logins1|e] eqn:Hpl; simpl; [|discriminate].
      intros Hrun s. rewrite (IH _ _ Hrun s), (collect_logins_strings _ _ _ Hpl s). split.
      * intros [[?|(m & Hin & Hn)]|(x & r' & p' & m & Hin & Hrest)]; [auto | |].
        -- right. exists (rq, Some r), r, payload, m. simpl. auto 6.
        -- right. exists x, r', p', m. split; [right; exact Hin | exact Hrest].
      * intros [?|(x & r' & p' & m & [<-|Hin] & Hs & Hj & Hm & Hn)]; [auto | |].
        -- simpl in Hs. injection Hs as <-. rewrite Hjson in Hj. injection Hj as <-.
           left. right. eauto.
        -- right. exists x, r', p', m. auto 6.
    + intros Hrun s. rewrite (IH _ _ Hrun s). split.
      * intros [?|(x & r' & p' & m & Hin & Hrest)]; [auto|].
        right. exists x, r', p', m. split; [right; exact Hin | exact Hrest].
      * intros [?|(x & r' & p' & m & [<-|Hin] & Hs & Hj & Hrest)]; [auto | |].
        -- simpl in Hs. injection Hs as <-. congruence.
        -- right. exists x, r', p', m. auto 6.
  - intros Hrun s. rewrite (IH _ _ Hrun s). split.
    + intros [?|(x & r' & p' & m & Hin & Hrest)]; [auto|].
      right. exists x, r', p', m. split; [right; exact Hin | exact Hrest].
    + intros [?|(x & r' & p' & m & [<-|Hin] & Hs & Hrest)]; [auto | discriminate |].
      right. exists x, r', p', m. auto 6.
Qed.

(** C8, as stated, fails on a record whose nested login is present and
    empty: its identifier is taken from the top-level field, here within a
    page of two records. *)
Lemma empty_nested_login_falls_back :
  spec_record_login empty_nested_record = Some (JStr EmptyString) /\
  collect_logins [JDict empty_nested_record; JDict [("login"%string, JStr "eve")]] ∅
  = Ok {[HStr "bob"; HStr "eve"]}.
Proof. vm_compute. split; reflexivity. Qed.

(** C8, amended: [extract_memberships] follows rules 1 to 4; over the
    records of a page, each record that is a mapping contributes the [login]
    of its nested [user] mapping when that is a non-empty string, else (that
    field missing, null or empty) its top-level [login] when it is a
    non-empty string, and is skipped without error otherwise (missing, null
    or empty too); items that are not mappings are skipped; the result holds
    the contributions of every record of the page.  The three payloads of
    the specification yield [{alice}], [{bob}] and the empty set. *)
Theorem extraction_rules :
  (forall payload, extract_memberships payload = spec_extract payload) /\
  (forall payload outs logins,
     Forall2 record_yields (extract_memberships payload) outs ->
     page_logins payload logins = Ok (yielded outs ∪ logins)) /\
  (forall payload logins logins',
     page_logins payload logins = Ok logins' ->
     forall s, HStr s ∈ logins' <->
       HStr s ∈ logins \/
       exists m, In (JDict m) (extract_memberships payload) /\ record_names m s) /\
  (page_logins (JDict [("memberships",
       JList [JDict [("user", JDict [("login", JStr "alice")])]])]%string) ∅
   = Ok {[HStr "alice"]} /\
   page_logins (JList [JDict [("login", JStr "bob")]]%string) ∅ = Ok {[HStr "bob"]} /\
   page_logins (JDict [("unrelated", JStr "x")]%string) ∅ = Ok ∅).
Proof.
  split; [exact extract_memberships_rules|]. split; [|split].
  - intros payload outs logins Hy. apply collect_logins_yields, Hy.
  - intros payload logins logins' Hrun. apply collect_logins_strings, Hrun.
  - vm_compute. repeat split.
Qed.

Lemma extraction_rules_witness :
  Forall2 record_yields (extract_memberships (JDict [("items"%string, JList five_items)]))
    [Some "alice"; None; Some "bob"; None; Some "eve"]%string /\
  page_logins (JDict [("items"%string, JList five_items)]) {[HStr "zed"]}
  = Ok ({[HStr "alice"; HStr "bob"; HStr "eve"]} ∪ {[HStr "zed"]}).
Proof.
  assert (Hy : Forall2 record_yields
                 (extract_memberships (JDict [("items"%string, JList five_items)]))
                 [Some "alice"; None; Some "bob"; None; Some "eve"]%string).
  { constructor;
      [apply yields_login, by_nested_login; [reflexivity | discriminate]|].
    constructor; [apply yields_no_record; reflexivity|].
    constructor;
      [apply yields_login, by_top_level_login; [reflexivity | reflexivity | discriminate]|].
    constructor; [apply yields_skip; [exact I | reflexivity]|].
    constructor;
      [apply yields_login, by_top_level_login; [exact I | reflexivity | discriminate]|].
    constructor. }
  split; [exact Hy|].
  replace ({[HStr "alice"; HStr "bob"; HStr "eve"]} : gset hashable)
    with (yielded [Some "alice"; None; Some "bob"; None; Some "eve"]%string)
    by (vm_compute; reflexivity).
  apply (proj1 (proj2 extraction_rules)), Hy.
Defined.

(** ** The page cap *)

Lemma rotating_never_ends : never_ending rotating.
Proof.
  intros w rq _. eexists. eexists. split; [reflexivity|].
  split; [reflexivity|]. split; [|vm_compute; reflexivity].
  eexists. split; [reflexivity|]. intros logins.
  unfold page_logins. cbn [extract_memberships first_listed priority_keys dict_lookup
                             String.eqb Ascii.eqb Bool.eqb collect_logins].
  destruct (add_login _ logins) as [l1|e] eqn:H1; simpl.
  - eexists. reflexivity.
  - exfalso. revert H1. unfold record_login, dict_get, py_or. simpl.
    destruct (PyStr.nonempty _); simpl; [|discriminate].
    destruct (PyStr.nonempty _); discriminate.
Defined.

(** C7: when every page of the team listing is read without error and
    carries a next cursor, the fetch makes exactly 200 calls, all of them
    reads, does not raise, and returns the logins accumulated from the 200
    payloads: a string is in the result exactly when a record of one of the
    200 pages names it. *)
Theorem pagination_stops_after_200_pages {World}
    (http : World -> request -> option response * World)
    base enterprise team_slug token w :
  never_ending http ->
  exists logins w' ex,
    fetch_enterprise_team_members World http base enterprise team_slug token (w, [])
    = (Ok logins, (w', ex)) /\
    length ex = 200%nat /\
    Forall (fun x => rq_verb (fst x) = GET) ex /\
    accumulate ex ∅ = Ok logins /\
    (forall s, HStr s ∈ logins <->
       exists x r payload m,
         In x ex /\ snd x = Some r /\ resp_json r = Some payload /\
         In (JDict m) (extract_memberships payload) /\ record_names m s).
Proof.
  intros Hnever. unfold fetch_enterprise_team_members.
  destruct (team_loop_never_ending http (github_headers token) Hnever 199
              (Some (team_url base enterprise team_slug)) 1 ∅ w []
              (team_url_truthy _ _ _) eq_refl)
    as (logins & w' & ex & Hrun & Hlen & Hget & Hacc).
  exists logins, w', ex. repeat split; try assumption.
  - intros Hs. apply (accumulate_strings _ _ _ Hacc s) in Hs as [Hs|Hs]; [set_solver | exact Hs].
  - intros Hs. apply (accumulate_strings _ _ _ Hacc s). right. exact Hs.
Qed.

Lemma pagination_stops_after_200_pages_witness :
  let run := fetch_enterprise_team_members nat rotating api acme platform secret (0%nat, []) in
  (fst run = Ok {[HStr "ann"; HStr "ben"; HStr "cat"; HStr "zoe"]} /\
   fst (snd run) = 200%nat) /\
  exists logins w' ex,
    run = (Ok logins, (w', ex)) /\
    length ex = 200%nat /\
    Forall (fun x => rq_verb (fst x) = GET) ex /\
    accumulate ex ∅ = Ok logins /\
    (forall s, HStr s ∈ logins <->
       exists x r payload m,
         In x ex /\ snd x = Some r /\ resp_json r = Some payload /\
         In (JDict m) (extract_memberships payload) /\ record_names m s).
Proof.
  intros run. split; [vm_compute; split; reflexivity|].
  apply (pagination_stops_after_200_pages rotating api acme platform secret 0%nat).
  apply rotating_never_ends.
Defined.

(** ** The plan of a run *)

Section CompletedPlans.

Context {World : Type} (http : World -> request -> option response * World).

(** A phase that completes has sent one request per element of its set. *)
Lemma phase_complete op mk okb (s : gset hashable) :
  reports http op mk okb ->
  forall w tr rep w' tr',
    phase World op s (w, tr) = (Ok rep, (w', tr')) ->
    exists usernames ex,
      usernames ≡ₚ elements s /\ tr' = tr ++ ex /\ map fst ex = map mk usernames.
Proof.
  intros Hop w tr rep w' tr'. unfold phase, bind, lift, ret.
  destruct (set_truthy s) eqn:Htruthy.
  - destruct (py_sorted s) as [l|e] eqn:Hsorted; [|discriminate].
    destruct (count_successes World op l 0%nat (w, tr)) as [r [w1 tr1]] eqn:Hrun.
    apply (count_successes_outcome http _ _ _ Hop) in Hrun as (ex & -> & Hreq & Hout).
    destruct Hout as [(-> & Hlen & _)|(-> & _)]; [|discriminate].
    intros [= _ _ <-]. exists l, ex. split; [apply py_sorted_permutation, Hsorted|].
    split; [reflexivity|]. rewrite Hreq, Hlen, firstn_all. reflexivity.
  - intros [= _ _ <-]. apply set_truthy_false in Htruthy as ->.
    exists [], []. rewrite elements_empty, app_nil_r.
    split; [reflexivity|]. split; reflexivity.
Qed.

(** A plan applied to completion has sent exactly the removals, then
    exactly the additions. *)
Lemma reconcile_complete base enterprise cost_center_id token
    (team cost_center : gset hashable) w tr report w' tr' :
  reconcile World http base enterprise cost_center_id token team cost_center (w, tr)
    = (Ok report, (w', tr')) ->
  exists removals additions ex_rem ex_add,
    removals ≡ₚ elements (to_remove_of team cost_center) /\
    additions ≡ₚ elements (to_add_of team cost_center) /\
    tr' = tr ++ ex_rem ++ ex_add /\
    map fst ex_rem = map (delete_request base enterprise cost_center_id token) removals /\
    map fst ex_add = map (post_request base enterprise cost_center_id token) additions.
Proof.
  unfold reconcile. unfold bind at 1.
  destruct (log_sorted _ _ (w, tr)) as [r1 st1] eqn:H1.
  apply log_sorted_outcome in H1 as [-> [[-> _]| ->]]; [|discriminate].
  unfold bind at 1.
  destruct (log_sorted _ _ (w, tr)) as [r2 st2] eqn:H2.
  apply log_sorted_outcome in H2 as [-> [[-> _]| ->]]; [|discriminate].
  unfold bind at 1.
  destruct (phase _ _ _ (w, tr)) as [[rep3|e3] [w3 tr3]] eqn:H3; [|discriminate].
  apply (phase_complete _ _ _ _ (remove_user_reports http _ _ _ _)) in H3
    as (removals & ex_rem & Hp3 & -> & Hr3).
  unfold bind at 1.
  destruct (phase _ _ _ (w3, tr ++ ex_rem)) as [[rep4|e4] [w4 tr4]] eqn:H4; [|discriminate].
  apply (phase_complete _ _ _ _ (add_user_reports http _ _ _ _)) in H4
    as (additions & ex_add & Hp4 & -> & Hr4).
  intros [= _ _ <-]. exists removals, additions, ex_rem, ex_add.
  rewrite <- app_assoc. repeat split; assumption.
Qed.

(** A [TypeError] of a plan is raised before its first mutation. *)
Lemma reconcile_type_error_is_early base enterprise cost_center_id token
    (team cost_center : gset hashable) w tr w' tr' :
  reconcile World http base enterprise cost_center_id token team cost_center (w, tr)
    = (Raise TypeError, (w', tr')) ->
  w' = w /\ tr' = tr.
Proof.
  unfold reconcile. unfold bind at 1.
  destruct (log_sorted _ _ (w, tr)) as [r1 st1] eqn:H1.
  apply log_sorted_outcome in H1 as [-> [[-> Hrem]| ->]]; [|intros [= <- <-]; auto].
  unfold bind at 1.
  destruct (log_sorted _ _ (w, tr)) as [r2 st2] eqn:H2.
  apply log_sorted_outcome in H2 as [-> [[-> Hadd]| ->]]; [|intros [= <- <-]; auto].
  intros Hrun. exfalso. unfold bind at 1 in Hrun.
  destruct (phase _ _ _ (w, tr)) as [r3 [w3 tr3]] eqn:H3.
  apply (phase_outcome http _ _ _ _ (remove_user_reports http _ _ _ _)) in H3
    as (ex3 & -> & _ & _ & Herr3).
  destruct r3 as [rep3|e3].
  - unfold bind at 1 in Hrun.
    destruct (phase _ _ _ (w3, tr ++ ex3)) as [r4 [w4 tr4]] eqn:H4.
    apply (phase_outcome http _ _ _ _ (add_user_reports http _ _ _ _)) in H4
      as (ex4 & -> & _ & _ & Herr4).
    destruct r4 as [rep4|e4]; [discriminate|]. injection Hrun as -> _ _.
    destruct (Herr4 _ eq_refl) as [(_ & _ & Ht & Hs)|[? _]]; [|discriminate].
    destruct (Hadd Ht) as [l Hl]. congruence.
  - injection Hrun as -> _ _.
    destruct (Herr3 _ eq_refl) as [(_ & _ & Ht & Hs)|[? _]]; [|discriminate].
    destruct (Hrem Ht) as [l Hl]. congruence.
Qed.

(** A set that mixes [str] and [int] makes the analysis log raise. *)
Lemma reconcile_mixed base enterprise cost_center_id token
    (team cost_center : gset hashable) w tr :
  mixed (to_remove_of team cost_center) \/ mixed (to_add_of team cost_center) ->
  reconcile World http base enterprise cost_center_id token team cost_center (w, tr)
  = (Raise TypeError, (w, tr)).
Proof.
  assert (Hlog : forall s : gset hashable, mixed s ->
            log_sorted World s (w, tr) = (Raise TypeError, (w, tr))).
  { intros s Hm. unfold log_sorted, bind, lift. destruct Hm as (a & n & Ha & Hn).
    rewrite (set_truthy_nonempty s _ Ha), (py_sorted_mixed s).
    - reflexivity.
    - exists a, n. auto. }
  intros Hm. unfold reconcile. unfold bind at 1.
  destruct (log_sorted World (to_remove_of team cost_center) (w, tr)) as [r1 st1] eqn:H1.
  apply log_sorted_outcome in H1 as [-> [[-> Hrem]| ->]]; [|reflexivity].
  destruct Hm as [Hm|Hm].
  - exfalso. pose proof (py_sorted_mixed _ Hm) as Hraise.
    destruct Hm as (a & _ & Ha & _).
    destruct (Hrem (set_truthy_nonempty _ _ Ha)) as [l Hl]. congruence.
  - unfold bind at 1. rewrite (Hlog _ Hm). reflexivity.
Qed.

End CompletedPlans.

(** Requests built from a listing of a set are requests for its members. *)
Lemma sent_to_members (mk : hashable -> request) (s : gset hashable)
    (l : list hashable) (ex : list exchange) :
  l ≡ₚ elements s -> map fst ex = map mk l ->
  Forall (fun x => exists u, u ∈ s /\ fst x = mk u) ex.
Proof.
  intros Hp Hmap. apply List.Forall_forall. intros x Hx.
  assert (Hin : In (fst x) (map mk l)).
  { rewrite <- Hmap. apply in_map, Hx. }
  apply in_map_iff in Hin as (u & Hu & Hin).
  exists u. split; [|symmetry; exact Hu].
  apply elem_of_elements. rewrite <- Hp. apply list_elem_of_In, Hin.
Qed.

(** C1: in every run whose two reads return the sets [team] and
    [cost_center], the rest of the run is the plan of lines 227 and 228
    applied to them: every call after the reads is a DELETE for a member of
    [cost_center ∖ team] or, after those, a POST for a member of
    [team ∖ cost_center], and when the run completes the DELETEs are exactly
    one per member of the first difference and the POSTs exactly one per
    member of the second.  The additions are disjoint from the cost-center
    set, the removals from the team set, and additions from removals; for
    team [{a,b,c}] and cost center [{b,c,d}] the run removes [d] and adds
    [a]. *)
Theorem plan_is_set_difference :
  (forall World (http : World -> request -> option response * World)
      base enterprise team_slug cost_center_id token
      w tr team w1 tr1 cost_center w2 tr2,
     fetch_enterprise_team_members World http base enterprise team_slug token (w, tr)
       = (Ok team, (w1, tr1)) ->
     fetch_cost_center_members World http base enterprise cost_center_id token (w1, tr1)
       = (Ok cost_center, (w2, tr2)) ->
     forall res w3 tr3,
       sync_cost_center_with_team World http base enterprise team_slug cost_center_id token
         (w, tr) = (res, (w3, tr3)) ->
       exists ex_rem ex_add,
         tr3 = tr2 ++ ex_rem ++ ex_add /\
         Forall (fun x => exists u, u ∈ cost_center ∖ team /\
                   fst x = delete_request base enterprise cost_center_id token u) ex_rem /\
         Forall (fun x => exists u, u ∈ team ∖ cost_center /\
                   fst x = post_request base enterprise cost_center_id token u) ex_add /\
         (forall report, res = Ok report ->
            exists removals additions,
              removals ≡ₚ elements (cost_center ∖ team) /\
              additions ≡ₚ elements (team ∖ cost_center) /\
              map fst ex_rem
              = map (delete_request base enterprise cost_center_id token) removals /\
              map fst ex_add
              = map (post_request base enterprise cost_center_id token) additions)) /\
  (forall team cost_center : gset hashable,
     to_remove_of team cost_center = cost_center ∖ team /\
     to_add_of team cost_center = team ∖ cost_center /\
     to_add_of team cost_center ## cost_center /\
     to_remove_of team cost_center ## team /\
     to_add_of team cost_center ## to_remove_of team cost_center) /\
  (to_add_of {[HStr "a"; HStr "b"; HStr "c"]} {[HStr "b"; HStr "c"; HStr "d"]}
   = {[HStr "a"]} /\
   to_remove_of {[HStr "a"; HStr "b"; HStr "c"]} {[HStr "b"; HStr "c"; HStr "d"]}
   = {[HStr "d"]} /\
   map summary (snd (snd abcd_run))
   = [ (GET, None, Some 200);
       (GET, None, Some 200);
       (DELETE, Some (users_payload (HStr "d")), Some 204);
       (POST, Some (users_payload (HStr "a")), Some 201) ]).
Proof.
  split; [|split].
  - intros World http base enterprise team_slug cost_center_id token
      w tr team w1 tr1 cost_center w2 tr2 Hteam Hcc res w3 tr3 Hrun.
    rewrite (sync_after_fetch http _ _ _ _ _ _ _ _ _ _ Hteam Hcc) in Hrun.
    change (cost_center ∖ team) with (to_remove_of team cost_center).
    change (team ∖ cost_center) with (to_add_of team cost_center).
    destruct res as [report|e].
    + apply reconcile_complete in Hrun
        as (removals & additions & ex_rem & ex_add & Hp1 & Hp2 & -> & Hr1 & Hr2).
      exists ex_rem, ex_add. split; [reflexivity|].
      split; [exact (sent_to_members _ _ _ _ Hp1 Hr1)|].
      split; [exact (sent_to_members _ _ _ _ Hp2 Hr2)|].
      intros _ _. exists removals, additions. auto.
    + apply reconcile_outcome in Hrun as (ex_rem & ex_add & -> & Hrem & Hadd & _).
      exists ex_rem, ex_add. split; [reflexivity|]. split; [exact Hrem|].
      split; [exact Hadd|]. discriminate.
  - intros team cost_center. unfold to_remove_of, to_add_of. repeat split; set_solver.
  - vm_compute. repeat split.
Qed.

Lemma plan_is_set_difference_witness :
  let run := sync_cost_center_with_team directory busy_http api acme platform cc42 secret
               (busy_directory, []) in
  exists ex_rem ex_add,
    snd (snd run) = snd busy_reads2 ++ ex_rem ++ ex_add /\
    Forall (fun x => exists u, u ∈ busy_cost_center ∖ busy_team /\
              fst x = delete_request api acme cc42 secret u) ex_rem /\
    Forall (fun x => exists u, u ∈ busy_team ∖ busy_cost_center /\
              fst x = post_request api acme cc42 secret u) ex_add /\
    (forall report, fst run = Ok report ->
       exists removals additions,
         removals ≡ₚ elements (busy_cost_center ∖ busy_team) /\
         additions ≡ₚ elements (busy_team ∖ busy_cost_center) /\
         map fst ex_rem = map (delete_request api acme cc42 secret) removals /\
         map fst ex_add = map (post_request api acme cc42 secret) additions).
Proof.
  intros run.
  refine (proj1 plan_is_set_difference directory busy_http api acme platform cc42 secret
           busy_directory [] busy_team (fst busy_reads1) (snd busy_reads1)
           busy_cost_center (fst busy_reads2) (snd busy_reads2)
           _ _ (fst run) (fst (snd run)) (snd (snd run)) _);
    vm_compute; reflexivity.
Defined.

(** X6: when a plan is applied to completion, the summary of a phase is
    absent exactly when the set of the phase is empty, and then the phase
    made no call; otherwise the number attempted is the size of the set and
    the number of calls of the phase, and the number succeeded is the number
    of success statuses received, at most the number attempted. *)
Theorem summaries_count_the_attempts {World}
    (http : World -> request -> option response * World)
    base enterprise cost_center_id token (team cost_center : gset hashable)
    w tr report w' tr' :
  reconcile World http base enterprise cost_center_id token team cost_center (w, tr)
    = (Ok report, (w', tr')) ->
  exists ex_rem ex_add,
    tr' = tr ++ ex_rem ++ ex_add /\
    match removal_report report with
    | None => cost_center ∖ team = ∅ /\ ex_rem = []
    | Some r => cost_center ∖ team <> ∅ /\
                attempted r = size (cost_center ∖ team) /\
                length ex_rem = attempted r /\
                succeeded r = count_true remove_success (statuses ex_rem) /\
                (succeeded r <= attempted r)%nat
    end /\
    match addition_report report with
    | None => team ∖ cost_center = ∅ /\ ex_add = []
    | Some r => team ∖ cost_center <> ∅ /\
                attempted r = size (team ∖ cost_center) /\
                length ex_add = attempted r /\
                succeeded r = count_true add_success (statuses ex_add) /\
                (succeeded r <= attempted r)%nat
    end.
Proof.
  intros Hrun. apply reconcile_outcome in Hrun as (ex_rem & ex_add & -> & _ & _ & Hok & _).
  exists ex_rem, ex_add. split; [reflexivity|]. exact (Hok report eq_refl).
Qed.

Lemma summaries_count_the_attempts_witness :
  let run := reconcile directory busy_http api acme cc42 secret busy_team
               (busy_team ∪ {[HStr "carol"]}) busy_reads2 in
  fst run = Ok (mk_sync_report (Some (mk_phase_report 0 1)) None) /\
  exists ex_rem ex_add,
    snd (snd run) = snd busy_reads2 ++ ex_rem ++ ex_add /\
    ((busy_team ∪ {[HStr "carol"]}) ∖ busy_team <> ∅ /\
     1%nat = size ((busy_team ∪ {[HStr "carol"]}) ∖ busy_team) /\ length ex_rem = 1%nat /\
     0%nat = count_true remove_success (statuses ex_rem) /\ (0 <= 1)%nat) /\
    (busy_team ∖ (busy_team ∪ {[HStr "carol"]}) = ∅ /\ ex_add = []).
Proof.
  intros run. split; [vm_compute; reflexivity|].
  apply (summaries_count_the_attempts busy_http api acme cc42 secret
           busy_team (busy_team ∪ {[HStr "carol"]}) (fst busy_reads2) (snd busy_reads2)
           (mk_sync_report (Some (mk_phase_report 0 1)) None)
           (fst (snd run)) (snd (snd run))).
  vm_compute. reflexivity.
Defined.

(** X7: when the removals or the additions hold both a [str] and an
    [int], applying the plan raises [TypeError] and leaves the state as the
    reads left it: [sorted] fails in the analysis log, before the first
    mutation.  Conversely, whenever applying a plan raises [TypeError], no
    mutation has been attempted. *)
Theorem mixed_identifiers_abort_before_mutation {World}
    (http : World -> request -> option response * World)
    base enterprise cost_center_id token (team cost_center : gset hashable) w tr :
  (mixed (cost_center ∖ team) \/ mixed (team ∖ cost_center) ->
   reconcile World http base enterprise cost_center_id token team cost_center (w, tr)
   = (Raise TypeError, (w, tr))) /\
  (forall w' tr',
     reconcile World http base enterprise cost_center_id token team cost_center (w, tr)
     = (Raise TypeError, (w', tr')) ->
     w' = w /\ tr' = tr).
Proof.
  split.
  - apply reconcile_mixed.
  - intros w' tr'. apply reconcile_type_error_is_early.
Qed.

Lemma mixed_identifiers_abort_before_mutation_witness :
  (mixed ((∅ : gset hashable) ∖ {[HStr "alice"; HInt 7]})
   \/ mixed ({[HStr "alice"; HInt 7]} ∖ (∅ : gset hashable))) /\
  reconcile directory plain_http api acme cc42 secret {[HStr "alice"; HInt 7]} ∅
    (first_directory, [])
  = (Raise TypeError, (first_directory, [])).
Proof.
  assert (Hm : mixed ((∅ : gset hashable) ∖ {[HStr "alice"; HInt 7]})
               \/ mixed ({[HStr "alice"; HInt 7]} ∖ (∅ : gset hashable))).
  { right. exists "alice"%string, 7. split; set_solver. }
  split; [exact Hm|].
  apply (proj1 (mixed_identifiers_abort_before_mutation plain_http api acme cc42 secret
                  {[HStr "alice"; HInt 7]} ∅ first_directory [])).
  exact Hm.
Defined.

(** X15: [main] with a variable missing raises [SystemExit(1)] without a
    call.  Otherwise it runs the synchronisation on the configured values
    and ends in the state the run left: when the run returns, [main]
    returns; a [SystemExit] raised by a fetcher leaves [main] as it is, with
    its message; every other exception of the run becomes
    [SystemExit(1)]. *)
Theorem main_returns_or_exits {World}
    (http : World -> request -> option response * World) env st res st' :
  main http env st = (res, st') ->
  (missing_variables env <> [] /\ res = Raise exit_1 /\ st' = st) \/
  (missing_variables env = [] /\
   exists res0,
     sync_cost_center_with_team World http (api_base env)
       (default EmptyString (env "GITHUB_ENTERPRISE"%string))
       (default EmptyString (env "GITHUB_TEAM_SLUG"%string))
       (default EmptyString (env "GITHUB_COST_CENTER_ID"%string))
       (default EmptyString (env "GITHUB_TOKEN"%string)) st = (res0, st') /\
     match res0 with
     | Ok _ => res = Ok tt
     | Raise (SystemExit msg status) => res = Raise (SystemExit msg status)
     | Raise OutOfFuel => False
     | Raise _ => res = Raise exit_1
     end).
Proof.
  unfold main. destruct (missing_variables env) eqn:Hmissing.
  2:{ intros [= <- <-]. left. split; [discriminate|]. split; reflexivity. }
  intros Hmain. right. split; [reflexivity|]. destruct st as [w tr].
  destruct (sync_cost_center_with_team _ _ _ _ _ _ _ (w, tr)) as [res0 [w1 tr1]] eqn:Hrun.
  pose proof (sync_outcome http _ _ _ _ _ _ _ _ _ _ Hrun) as [Hfuel _].
  exists res0. destruct res0 as [report|e].
  - injection Hmain as <- <-. split; reflexivity.
  - destruct e; simpl in Hmain; injection Hmain as <- <-; split; try reflexivity.
    congruence.
Qed.

Lemma main_returns_or_exits_witness :
  let caught := main (@scripted) full_env
                  ([Some (mk_response 200 (Some (JList [])) None);
                    Some (mk_response 200 (Some listed_resources) None)], []) in
  let passed := main (@scripted) full_env
                  ([Some (mk_response 404 None None)], []) in
  (fst caught = Raise exit_1 /\ length (snd (snd caught)) = 2%nat) /\
  fst passed = Raise (SystemExit "Failed to fetch team memberships: HTTP " (Some 404)) /\
  (missing_variables full_env <> [] /\ fst caught = Raise exit_1 /\
   snd caught = ([Some (mk_response 200 (Some (JList [])) None);
                  Some (mk_response 200 (Some listed_resources) None)], [])
   \/
   missing_variables full_env = [] /\
   exists res0,
     sync_cost_center_with_team _ scripted (api_base full_env)
       (default EmptyString (full_env "GITHUB_ENTERPRISE"%string))
       (default EmptyString (full_env "GITHUB_TEAM_SLUG"%string))
       (default EmptyString (full_env "GITHUB_COST_CENTER_ID"%string))
       (default EmptyString (full_env "GITHUB_TOKEN"%string))
       ([Some (mk_response 200 (Some (JList [])) None);
         Some (mk_response 200 (Some listed_resources) None)], [])
     = (res0, snd caught) /\
     match res0 with
     | Ok _ => fst caught = Ok tt
     | Raise (SystemExit msg status) => fst caught = Raise (SystemExit msg status)
     | Raise OutOfFuel => False
     | Raise _ => fst caught = Raise exit_1
     end).
Proof.
  intros caught passed. split; [vm_compute; split; reflexivity|].
  split; [vm_compute; reflexivity|].
  apply (main_returns_or_exits scripted full_env
           ([Some (mk_response 200 (Some (JList [])) None);
             Some (mk_response 200 (Some listed_resources) None)], [])
           (fst caught) (snd caught)).
  vm_compute. reflexivity.
Defined.
